(** * A shallow embedding of the deterministic event-sourced scheduler

    Source: [src/engine.ts] (classes [Timeline] and [Workflow]).

    The scheduler keeps an ordered log of events (the history), a table of
    task states and a replay cursor.  [enqueueEvent] is the single gate
    through which every scheduling decision enters the log; [run] drains
    the log and applies the per-event transitions.

    Conventions of the embedding:
    - JavaScript numbers that are used as indices or task ids are [Z]
      ([replayIndex] starts at [-1]); the loop counter of [run] is a [nat].
    - [Map<number, TaskState>] is a [gmap Z TaskState].
    - Closures stored in events are defunctionalised: one constructor of
      [Callback] per closure-creation site of [engine.ts].
    - Code running inside the isolate is a tree of host calls ([Script]);
      the functions of the isolate are a section variable, so that the
      properties hold for any workflow code.
    - Exceptions do not roll the state back: a computation returns a
      [Result] together with the state reached when it threw.
    - Real time is an oracle: at every suspension point of [run] the
      environment chooses which started timers elapse. *)

From stdpp Require Import gmap strings list.

(** ** Values, callbacks and events *)

(** A value of TypeScript type [unknown], as far as the engine looks at it:
    it is copied around, compared by [assert.deepStrictEqual] and, when
    [valueIsTaskId] is set, cast to a number. *)
Inductive value :=
  | VUndefined
  | VNum (n : Z)
  | VStr (s : string).

#[global] Instance value_eq_dec : EqDecision value.
Proof. solve_decision. Defined.

(** [TaskCompleteCallback]: the three closures that [engine.ts] builds.
    - [CbForward taskId]: lines 165-172, the forwarding closure of [run];
    - [CbThen nextTaskId fn]: lines 316-324, the closure of [then];
    - [CbTimer fn args]: line 290, the closure of [createTimer].
    [fn] names a function reference living in the isolate. *)
Inductive Callback :=
  | CbForward (taskId : Z)
  | CbThen (nextTaskId : Z) (fn : nat)
  | CbTimer (fn : nat) (args : list value).

#[global] Instance Callback_eq_dec : EqDecision Callback.
Proof. solve_decision. Defined.

(** The union [Event] of lines 61-68. *)
Inductive Event :=
  | PromiseComplete (taskId : Z) (valueIsTaskId : bool) (v : value)
                    (callbacks : list Callback)
  | PromiseCreate
  | PromiseRegister (taskId : Z) (callback : Callback)
  | PromiseResolve (taskId : Z) (valueIsTaskId : bool) (v : value)
  | TimerStart (ms : Z) (callback : Callback)
  | TimerResolve (taskId : Z) (valueIsTaskId : bool) (v : value).

#[global] Instance Event_eq_dec : EqDecision Event.
Proof. solve_decision. Defined.

(** [TimerCancelEvent] (lines 49-52) is declared and exported, but it is not
    a member of the union [Event] and no code of [engine.ts] mentions it. *)
Record TimerCancelEvent := { timerId : Z }.

Definition TimerCancelEvent_type : string := "TimerCancel".

(** The discriminant field [type]. *)
Definition type (e : Event) : string :=
  match e with
  | PromiseComplete _ _ _ _ => "PromiseComplete"
  | PromiseCreate => "PromiseCreate"
  | PromiseRegister _ _ => "PromiseRegister"
  | PromiseResolve _ _ _ => "PromiseResolve"
  | TimerStart _ _ => "TimerStart"
  | TimerResolve _ _ _ => "TimerResolve"
  end.

(** What is left of an event once [sanitizeEvent] (lines 100-103) has
    removed the fields [callback] and [callbacks]. *)
Inductive SanitizedEvent :=
  | SPromiseComplete (taskId : Z) (valueIsTaskId : bool) (v : value)
  | SPromiseCreate
  | SPromiseRegister (taskId : Z)
  | SPromiseResolve (taskId : Z) (valueIsTaskId : bool) (v : value)
  | STimerStart (ms : Z)
  | STimerResolve (taskId : Z) (valueIsTaskId : bool) (v : value).

#[global] Instance SanitizedEvent_eq_dec : EqDecision SanitizedEvent.
Proof. solve_decision. Defined.

Definition sanitizeEvent (event : Event) : SanitizedEvent :=
  match event with
  | PromiseComplete taskId valueIsTaskId v _ =>
      SPromiseComplete taskId valueIsTaskId v
  | PromiseCreate => SPromiseCreate
  | PromiseRegister taskId _ => SPromiseRegister taskId
  | PromiseResolve taskId valueIsTaskId v =>
      SPromiseResolve taskId valueIsTaskId v
  | TimerStart ms _ => STimerStart ms
  | TimerResolve taskId valueIsTaskId v =>
      STimerResolve taskId valueIsTaskId v
  end.

(** ** Errors *)

(** The two template strings given to [InvalidSchedulerState], by their
    interpolated parts (lines 117 and 135). *)
Inductive Message :=
  | NoTaskState (taskId : Z)
  | ExpectedGot (expected got : string) (index : Z).

Inductive Error :=
  | InvalidSchedulerState (message : Message)
    (* thrown by [assert.deepStrictEqual (actual, expected)], line 137 *)
  | AssertionError (actual expected : SanitizedEvent)
    (* reading [.type] of [undefined], line 131 *)
  | TypeError
    (* an exception raised by code of the isolate *)
  | IsolateError (msg : string)
    (* [event.value as number] (line 164) applied to a value that is not a
       number: outside what the field type [taskId: number] admits *)
  | NotANumber (v : value).

#[global] Instance Message_eq_dec : EqDecision Message.
Proof. solve_decision. Defined.

#[global] Instance Error_eq_dec : EqDecision Error.
Proof. solve_decision. Defined.

Inductive Result (A : Type) :=
  | Ok (a : A)
  | Throw (e : Error).
Arguments Ok {A} a.
Arguments Throw {A} e.

(** ** Task states (lines 74-92) *)

Inductive TaskState :=
  | CREATED (callbacks : list Callback)
  | RESOLVED (callbacks : list Callback) (valueIsTaskId : bool) (v : value)
  | REJECTED (callbacks : list Callback) (error : value).

#[global] Instance TaskState_eq_dec : EqDecision TaskState.
Proof. solve_decision. Defined.

Definition callbacks_of (t : TaskState) : list Callback :=
  match t with
  | CREATED cbs | RESOLVED cbs _ _ | REJECTED cbs _ => cbs
  end.

(** ** The objects *)

Record SchedulerState := {
  tasks : gmap Z TaskState;
  isReplay : bool;
  replayIndex : Z;
}.

Record Timeline := {
  history : list Event;
  state : SchedulerState;
  (* whether the hook [onEnqueue] is installed *)
  onEnqueue : bool;
}.

(** Lines written by [console.log]. *)
Inductive LogLine :=
  | LogEnqueue (index : Z) (event : Event)     (* '> Enqueue Event' *)
  | LogHandle (index : Z) (event : Event)      (* '< Handle event ' *)
  | LogOnEnqueue.                              (* 'onEnqueue' *)

(** A real-time wait started by [TimerStart] (lines 217-227): the promise
    pushed on [pendingPromises], with whether its timer has elapsed. *)
Record PendingPromise := {
  pp_taskId : Z;
  pp_ms : Z;
  pp_settled : bool;
}.

(** One call [callback(valueIsTaskId, value)] of line 232. *)
Record Invocation := {
  inv_callback : Callback;
  inv_valueIsTaskId : bool;
  inv_value : value;
}.

(** Everything a run of the engine reads or writes: the [Timeline] object,
    the console, the local [pendingPromises] of [run], and (for stating
    properties only) the calls made at line 232. *)
Record World := {
  timeline : Timeline;
  console : list LogLine;
  pendingPromises : list PendingPromise;
  invoked : list Invocation;
}.

Definition w_history (w : World) : list Event := history (timeline w).
Definition w_tasks (w : World) : gmap Z TaskState := tasks (state (timeline w)).
Definition w_isReplay (w : World) : bool := isReplay (state (timeline w)).
Definition w_replayIndex (w : World) : Z := replayIndex (state (timeline w)).

Definition set_history (h : list Event) (w : World) : World :=
  {| timeline := {| history := h;
                    state := state (timeline w);
                    onEnqueue := onEnqueue (timeline w) |};
     console := console w;
     pendingPromises := pendingPromises w;
     invoked := invoked w |}.

Definition set_state (s : SchedulerState) (w : World) : World :=
  {| timeline := {| history := history (timeline w);
                    state := s;
                    onEnqueue := onEnqueue (timeline w) |};
     console := console w;
     pendingPromises := pendingPromises w;
     invoked := invoked w |}.

Definition set_tasks (m : gmap Z TaskState) (w : World) : World :=
  set_state {| tasks := m;
               isReplay := w_isReplay w;
               replayIndex := w_replayIndex w |} w.

Definition set_replayIndex (i : Z) (w : World) : World :=
  set_state {| tasks := w_tasks w;
               isReplay := w_isReplay w;
               replayIndex := i |} w.

Definition log (l : LogLine) (w : World) : World :=
  {| timeline := timeline w;
     console := console w ++ [l];
     pendingPromises := pendingPromises w;
     invoked := invoked w |}.

Definition set_pendingPromises (p : list PendingPromise) (w : World) : World :=
  {| timeline := timeline w;
     console := console w;
     pendingPromises := p;
     invoked := invoked w |}.

Definition record_call (i : Invocation) (w : World) : World :=
  {| timeline := timeline w;
     console := console w;
     pendingPromises := pendingPromises w;
     invoked := invoked w ++ [i] |}.

(** The constructor (lines 110-113) and [startReplay] (lines 121-124). *)
Definition new_Timeline (history : list Event) : Timeline :=
  {| history := history;
     state := {| tasks := ∅;
                 isReplay := bool_decide (0 < length history);
                 replayIndex := -1 |};
     onEnqueue := false |}.

Definition startReplay (w : World) : World :=
  set_state {| tasks := w_tasks w; isReplay := true; replayIndex := -1 |} w.

Definition new_World (history : list Event) : World :=
  {| timeline := new_Timeline history;
     console := [];
     pendingPromises := [];
     invoked := [] |}.

(** ** Computations: state and exceptions *)

Definition M (A : Type) : Type := World → Result A * World.

Definition ret {A} (a : A) : M A := λ w, (Ok a, w).
Definition throw {A} (e : Error) : M A := λ w, (Throw e, w).
Definition bind {A B} (m : M A) (k : A → M B) : M B :=
  λ w, match m w with
       | (Ok a, w') => k a w'
       | (Throw e, w') => (Throw e, w')
       end.
Definition modify (f : World → World) : M unit := λ w, (Ok tt, f w).

Notation "'let*' x := m 'in' k" := (bind m (λ x, k))
  (at level 10, x name, m at level 200, k at level 200).
Notation "m ;;; k" := (bind m (λ _, k))
  (at level 100, k at level 200, right associativity).

(** ** [enqueueEvent] (lines 126-145) *)

(** [this.history[i]] for a JavaScript index: [undefined] out of range. *)
Definition history_at (h : list Event) (i : Z) : option Event :=
  if bool_decide (0 ≤ i)%Z then h !! Z.to_nat i else None.

(** The loop of line 131,
    [while (this.history[++this.state.replayIndex].type === 'TimerResolve');]
    run on the entries that follow the cursor: [rest] holds the entries from
    index [i] on.  The result is the final value of [replayIndex] and the
    entry found there: [None] when the loop read past the end of the array
    (and [.type] of [undefined] throws). *)
Fixpoint fastForward (rest : list Event) (i : Z) : Z * option Event :=
  match rest with
  | [] => (i, None)
  | e :: rest' =>
      if bool_decide (type e = "TimerResolve")
      then fastForward rest' (i + 1)%Z
      else (i, Some e)
  end.

Definition entries_from (h : list Event) (i : Z) : list Event :=
  if bool_decide (0 ≤ i)%Z then drop (Z.to_nat i) h else [].

(** Lines 127-129: the hook, when installed, logs and wakes [run] up. *)
Definition notify (w : World) : World :=
  if onEnqueue (timeline w) then log LogOnEnqueue w else w.

Definition enqueueEvent (event : Event) : M Z := λ w,
  let w := notify w in
  if w_isReplay w then
    let start := (w_replayIndex w + 1)%Z in
    let '(i, entry) := fastForward (entries_from (w_history w) start) start in
    let w := set_replayIndex i w in
    match entry with
    | None => (Throw TypeError, w)
    | Some historyEvent =>
        let w := log (LogEnqueue i event) w in
        if bool_decide (type historyEvent ≠ type event) then
          (Throw (InvalidSchedulerState
                    (ExpectedGot (type historyEvent) (type event) i)), w)
        else if bool_decide (sanitizeEvent event
                             = sanitizeEvent historyEvent) then
          (Ok i, set_history (<[Z.to_nat i := event]> (w_history w)) w)
        else
          (Throw (AssertionError (sanitizeEvent event)
                                 (sanitizeEvent historyEvent)), w)
    end
  else
    let eventIndex := Z.of_nat (length (w_history w)) in
    (Ok eventIndex,
     set_history (w_history w ++ [event]) (log (LogEnqueue eventIndex event) w)).

(** ** The host functions injected into the isolate (lines 283-327) *)

(** [try_ m] is [m] seen from the isolate: a host call that throws hands
    its error to the calling code, which may catch it. *)
Definition try_ {A} (m : M A) : M (Result A) :=
  λ w, let '(r, w') := m w in (Ok r, w').

(** [createPromise] (lines 299-309).  [callback taskId] stands for
    [callback.applySync] given the closure of line 303, which resolves
    [taskId]. *)
Definition createPromise (callback : Z → M unit) : M Z :=
  let* taskId := enqueueEvent PromiseCreate in
  callback taskId ;;;
  ret taskId.

(** The closure of line 303. *)
Definition resolve (taskId : Z) (valueIsTaskId : bool) (v : value) : M unit :=
  enqueueEvent (PromiseResolve taskId valueIsTaskId v) ;;; ret tt.

(** [then] (lines 311-327). *)
Definition then_ (taskId : Z) (fn : nat) : M Z :=
  let* nextTaskId := enqueueEvent PromiseCreate in
  enqueueEvent (PromiseRegister taskId (CbThen nextTaskId fn)) ;;;
  ret nextTaskId.

(** [createTimer] (lines 285-292). *)
Definition createTimer (fn : nat) (ms : Z) (args : list value) : M Z :=
  enqueueEvent (TimerStart ms (CbTimer fn args)).

(** ** Code of the isolate

    A function of the isolate is a tree: it returns a pair
    [[valueIsTaskId, value]], throws, or calls one of the injected host
    functions and goes on with what the call gave (a result or the error it
    threw). *)
Inductive Script :=
  | SReturn (valueIsTaskId : bool) (v : value)
  | SThrow (msg : string)
  | SNewPromise (executor : Z → Script) (k : Result Z → Script)
  | SResolve (taskId : Z) (valueIsTaskId : bool) (v : value)
             (k : Result unit → Script)
  | SThen (taskId : Z) (fn : nat) (k : Result Z → Script)
  | SSetTimeout (fn : nat) (ms : Z) (args : list value)
                (k : Result Z → Script).

Fixpoint exec (p : Script) : M (bool * value) :=
  match p with
  | SReturn valueIsTaskId v => ret (valueIsTaskId, v)
  | SThrow msg => throw (IsolateError msg)
  | SNewPromise executor k =>
      let* r := try_ (createPromise
                        (λ taskId, exec (executor taskId) ;;; ret tt)) in
      exec (k r)
  | SResolve taskId valueIsTaskId v k =>
      let* r := try_ (resolve taskId valueIsTaskId v) in
      exec (k r)
  | SThen taskId fn k =>
      let* r := try_ (then_ taskId fn) in
      exec (k r)
  | SSetTimeout fn ms args k =>
      let* r := try_ (createTimer fn ms args) in
      exec (k r)
  end.

(** ** The run loop (lines 147-257) *)

Section Run.

(** The functions that live in the isolate, by reference: [isolate fn args]
    is the code run by [fn.applySync(undefined, args)]. *)
Variable isolate : nat → list value → Script.

(** [callback(valueIsTaskId, value)], for each of the three closures. *)
Definition call (callback : Callback) (valueIsTaskId : bool) (v : value)
  : M unit :=
  match callback with
  | CbForward taskId =>
      enqueueEvent (PromiseResolve taskId valueIsTaskId v) ;;; ret tt
  | CbThen nextTaskId fn =>
      let* r := exec (isolate fn [v]) in
      enqueueEvent (PromiseResolve nextTaskId r.1 r.2) ;;; ret tt
  | CbTimer fn args =>
      exec (isolate fn args) ;;; ret tt
  end.

(** [getTaskState] (lines 115-119). *)
Definition getTaskState (taskId : Z) : M TaskState := λ w,
  match w_tasks w !! taskId with
  | None => (Throw (InvalidSchedulerState (NoTaskState taskId)), w)
  | Some task => (Ok task, w)
  end.

(** [this.state.tasks.set(taskId, task)]. *)
Definition tasks_set (taskId : Z) (task : TaskState) : M unit :=
  modify (λ w, set_tasks (<[taskId := task]> (w_tasks w)) w).

(** The [k]-th promise of [pendingPromises] settles. *)
Definition settle (k : nat) (ps : list PendingPromise) : list PendingPromise :=
  match ps !! k with
  | Some p => <[k := {| pp_taskId := pp_taskId p;
                        pp_ms := pp_ms p;
                        pp_settled := true |}]> ps
  | None => ps
  end.

(** The body of the async function of lines 217-226 once its timer has
    elapsed, for the [k]-th promise of [pendingPromises].  The call of
    [enqueueEvent] happens in the timer's own async function: if it throws,
    that promise rejects and [run] is not interrupted. *)
Definition fire (k : nat) (w : World) : World :=
  match pendingPromises w !! k with
  | Some p =>
      if pp_settled p then w
      else
        let '(_, w') :=
          enqueueEvent (TimerResolve (pp_taskId p) false VUndefined) w in
        set_pendingPromises (settle k (pendingPromises w')) w'
  | None => w
  end.

(** [await new Promise((resolve) => setImmediate(resolve))]: [run] is
    suspended for one turn of the event loop, during which the timers
    chosen by the environment ([fired], positions in [pendingPromises])
    elapse, in that order. *)
Definition yield (fired : list nat) : M unit :=
  modify (λ w, foldl (λ w k, fire k w) w fired).

(** What the body of the [for] loop does next. *)
Inductive Control :=
  | Continue   (* [break] out of the [switch]: next event *)
  | Return.    (* [return] of line 235 *)

(** [for (const callback of event.callbacks) callback(...)], line 231. *)
Fixpoint call_all (callbacks : list Callback) (valueIsTaskId : bool)
    (v : value) : M unit :=
  match callbacks with
  | [] => ret tt
  | callback :: rest =>
      modify (record_call {| inv_callback := callback;
                             inv_valueIsTaskId := valueIsTaskId;
                             inv_value := v |}) ;;;
      call callback valueIsTaskId v ;;;
      call_all rest valueIsTaskId v
  end.

(** The [switch] of lines 154-239 on the event at [eventIndex]. *)
Definition handle (fired : list nat) (eventIndex : nat) (event : Event)
  : M Control :=
  match event with
  | PromiseCreate =>
      tasks_set (Z.of_nat eventIndex) (CREATED []) ;;;
      ret Continue
  | TimerResolve taskId valueIsTaskId v
  | PromiseResolve taskId valueIsTaskId v =>
      let* task := getTaskState taskId in
      if valueIsTaskId then
        (* [taskId: event.value as number]: the cast is not checked.  The
           embedding follows the declared type of the field and stops on a
           value that is not a number. *)
        match v with
        | VNum target =>
            enqueueEvent (PromiseRegister target (CbForward taskId)) ;;;
            ret Continue
        | _ => throw (NotANumber v)
        end
      else
        tasks_set taskId (RESOLVED [] false v) ;;;
        yield fired ;;;
        (* [task] is the object that the map held before line 175; no
           [push] can reach its array any more, so the event carries the
           callbacks registered up to here *)
        (if bool_decide (0 < length (callbacks_of task)) then
           enqueueEvent (PromiseComplete taskId false v (callbacks_of task)) ;;;
           ret tt
         else ret tt) ;;;
        ret Continue
  | PromiseRegister taskId callback =>
      let* task := getTaskState taskId in
      match task with
      | RESOLVED _ valueIsTaskId v =>
          yield fired ;;;
          enqueueEvent (PromiseComplete taskId valueIsTaskId v [callback]) ;;;
          ret Continue
      | CREATED callbacks =>
          (* [task.callbacks.push]: the array of the object held in the map *)
          tasks_set taskId (CREATED (callbacks ++ [callback])) ;;;
          ret Continue
      | REJECTED _ _ =>
          ret Continue
      end
  | TimerStart ms callback =>
      let* taskId := enqueueEvent PromiseCreate in
      enqueueEvent (PromiseRegister taskId callback) ;;;
      (λ w, if w_isReplay w then (Ok tt, w)
            else (Ok tt,
                  set_pendingPromises
                    (pendingPromises w ++ [{| pp_taskId := taskId;
                                              pp_ms := ms;
                                              pp_settled := false |}]) w)) ;;;
      ret Continue
  | PromiseComplete taskId valueIsTaskId v callbacks =>
      call_all callbacks valueIsTaskId v ;;;
      if bool_decide (taskId = 0%Z) then ret Return else ret Continue
  end.

(** One turn of the [for] loop of line 151, when [eventIndex] is in range. *)
Definition step (fired : list nat) (eventIndex : nat) (event : Event)
  : M Control :=
  modify (log (LogHandle (Z.of_nat eventIndex) event)) ;;;
  handle fired eventIndex event.

(** How far a call of [run] gets.
    - [Returned]: [run] returned, at line 235 or at line 254.
    - [Waiting]: every event is handled and [pendingPromises] is not empty,
      so [run] goes on to wait at line 248; the wait itself (lines 242-252)
      is not part of the embedding.
    - [Failed]: an exception left [run].
    - [Unfinished]: the fuel, which bounds the number of events handled, is
      spent; the loop is about to handle [eventIndex]. *)
Inductive Outcome :=
  | Returned (w : World)
  | Waiting (eventIndex : nat) (w : World)
  | Failed (e : Error) (w : World)
  | Unfinished (eventIndex : nat) (w : World).

(** [run] from the top of the [while (true)] loop, with [eventIndex] the next
    index to handle.  [sched i] is what the environment fires while the
    event at index [i] is handled. *)
Fixpoint run_from (fuel : nat) (sched : nat → list nat) (eventIndex : nat)
    (w : World) : Outcome :=
  match fuel with
  | 0 => Unfinished eventIndex w
  | S fuel' =>
      match w_history w !! eventIndex with
      | None =>
          if bool_decide (0 < length (pendingPromises w))
          then Waiting eventIndex w
          else Returned w
      | Some event =>
          match step (sched eventIndex) eventIndex event w with
          | (Throw e, w') => Failed e w'
          | (Ok Return, w') => Returned w'
          | (Ok Continue, w') => run_from fuel' sched (S eventIndex) w'
          end
      end
  end.

(** [run()]: [eventIndex = 0] and [pendingPromises = []]. *)
Definition run (fuel : nat) (sched : nat → list nat) (w : World) : Outcome :=
  run_from fuel sched 0 (set_pendingPromises [] w).

End Run.

(** * Vocabulary of the properties *)

(** [j] is where a replay cursor standing at [replayIndex] lands: the first
    index after it whose entry is not a [TimerResolve]. *)
Definition lands_on (h : list Event) (replayIndex j : Z) (historyEvent : Event)
  : Prop :=
  (replayIndex < j)%Z
  ∧ (∀ k, (replayIndex < k < j)%Z →
          ∃ e, history_at h k = Some e ∧ type e = "TimerResolve")
  ∧ history_at h j = Some historyEvent
  ∧ type historyEvent ≠ "TimerResolve".

(** The events given to [enqueueEvent], as the console shows them. *)
Definition enqueued (lines : list LogLine) : list Event :=
  omap (λ l, match l with LogEnqueue _ e => Some e | _ => None end) lines.

(** The world in which a replaying [enqueueEvent] compares the two events:
    hook called, cursor moved to [j], one line logged. *)
Definition at_cursor (j : Z) (event : Event) (w : World) : World :=
  log (LogEnqueue j event) (set_replayIndex j (notify w)).

(** Entries of the history keep their type, and none is removed. *)
Definition types_kept (w w' : World) : Prop :=
  ∀ n e, w_history w !! n = Some e →
         ∃ e', w_history w' !! n = Some e' ∧ type e' = type e.

(** [same f]: the part [f] of the world is unchanged. *)
Definition same {A} (f : World → A) (w w' : World) : Prop := f w' = f w.

(** Every key of the task table is the index of a [PromiseCreate] entry of
    the history. *)
Definition task_ids_are_create_indices (w : World) : Prop :=
  ∀ taskId task,
    w_tasks w !! taskId = Some task →
    ∃ (n : nat) e,
      taskId = Z.of_nat n ∧ w_history w !! n = Some e
      ∧ type e = "PromiseCreate".

(** What handling the event at [eventIndex] may do to the table: keep the
    entries' types, and add no key but [eventIndex], and that only for a
    [PromiseCreate]. *)
Definition adds_only (eventIndex : nat) (event : Event) (w w' : World)
  : Prop :=
  types_kept w w'
  ∧ ∀ k, is_Some (w_tasks w' !! k) →
         is_Some (w_tasks w !! k)
         ∨ (k = Z.of_nat eventIndex ∧ event = PromiseCreate).

(** The world in which a call of [run] stops. *)
Definition final_world (o : Outcome) : World :=
  match o with
  | Returned w | Waiting _ w | Failed _ w | Unfinished _ w => w
  end.

(** The world after a live [enqueueEvent]. *)
Definition appended (event : Event) (w : World) : World :=
  set_history (w_history w ++ [event])
    (log (LogEnqueue (Z.of_nat (length (w_history w))) event) (notify w)).

(** The world in which a task has just been marked [RESOLVED] and [run]
    has come back from its suspension. *)
Definition settled_world (fired : list nat) (taskId : Z) (v : value)
    (w : World) : World :=
  (yield fired
     (set_tasks (<[taskId := RESOLVED [] false v]> (w_tasks w)) w)).2.

(** The calls of one batch, in the order of the list. *)
Definition batch (callbacks : list Callback) (b : bool) (v : value)
  : list Invocation :=
  map (λ callback, {| inv_callback := callback;
                      inv_valueIsTaskId := b;
                      inv_value := v |}) callbacks.

Definition all_settled (w : World) : Prop :=
  Forall (λ p, pp_settled p = true) (pendingPromises w).

(** The task state machine: what handling [event] at [eventIndex] makes of
    the task table, in live and in replay mode, whether the handling comes
    to its end or throws on the way. *)
Definition tasks_after (eventIndex : nat) (event : Event)
    (m : gmap Z TaskState) : gmap Z TaskState :=
  match event with
  | PromiseCreate => <[Z.of_nat eventIndex := CREATED []]> m
  | PromiseRegister taskId callback =>
      match m !! taskId with
      | Some (CREATED callbacks) =>
          <[taskId := CREATED (callbacks ++ [callback])]> m
      | _ => m
      end
  | PromiseResolve taskId false v | TimerResolve taskId false v =>
      match m !! taskId with
      | Some _ => <[taskId := RESOLVED [] false v]> m
      | None => m
      end
  | _ => m
  end.

(** The [k]-th pending wait is still there, as it was. *)
Definition still_waiting (k : nat) (p : PendingPromise) (w w' : World)
  : Prop :=
  pendingPromises w !! k = Some p → pendingPromises w' !! k = Some p.

(** The indices of the events handled, as the console shows them. *)
Definition handled (lines : list LogLine) : list Z :=
  omap (λ l, match l with LogHandle i _ => Some i | _ => None end) lines.

(** The task that the handler of [event] looks up with [getTaskState]. *)
Definition looked_up (event : Event) : option Z :=
  match event with
  | PromiseResolve taskId _ _ | TimerResolve taskId _ _
  | PromiseRegister taskId _ => Some taskId
  | _ => None
  end.

(** The cast of line 164 is applied to a number. *)
Definition cast_is_sound (event : Event) : Prop :=
  match event with
  | PromiseResolve _ true v | TimerResolve _ true v => ∃ target, v = VNum target
  | _ => True
  end.

(** A task that is no longer pending. *)
Definition is_settled (task : TaskState) : Prop :=
  match task with
  | CREATED _ => False
  | RESOLVED _ _ _ | REJECTED _ _ => True
  end.

(** [enqueueEvent(e1); ...; enqueueEvent(en)], with the indices returned; it
    stops at the first call that throws. *)
Fixpoint enqueueAll (events : list Event) : M (list Z) :=
  match events with
  | [] => ret []
  | event :: rest =>
      let* i := enqueueEvent event in
      let* indices := enqueueAll rest in
      ret (i :: indices)
  end.

Definition is_TimerResolve (e : Event) : Prop := type e = "TimerResolve".

#[global] Instance is_TimerResolve_dec (e : Event) : Decision (is_TimerResolve e).
Proof. unfold is_TimerResolve. apply _. Defined.

(** The entries of a history that a replay compares: all but the
    [TimerResolve] ones. *)
Definition replayed (h : list Event) : list Event :=
  filter (λ e, ¬ is_TimerResolve e) h.

(** In live mode the history only grows at its end. *)
Definition grows_live (w w' : World) : Prop :=
  w_isReplay w = false →
  w_isReplay w' = false ∧ w_history w `prefix_of` w_history w'.

(** In replay mode the history keeps, entry by entry, what [sanitizeEvent]
    leaves of it. *)
Definition keeps_recorded (w w' : World) : Prop :=
  w_isReplay w = true →
  w_isReplay w' = true
  ∧ sanitizeEvent <$> w_history w' = sanitizeEvent <$> w_history w.

(** Replay mode, with no timer started. *)
Definition quiet_replay (w : World) : Prop :=
  w_isReplay w = true ∧ pendingPromises w = [].

(** No step out of that condition. *)
Definition stays_quiet (w w' : World) : Prop :=
  quiet_replay w → quiet_replay w'.

(** Replay mode, with nothing but [TimerResolve] entries (or nothing at
    all) after the cursor. *)
Definition exhausted (w : World) : Prop :=
  w_isReplay w = true
  ∧ (-1 ≤ w_replayIndex w)%Z
  ∧ Forall is_TimerResolve
      (entries_from (w_history w) (w_replayIndex w + 1)).

(** The replaying world [wR] stands where the live world [wL] stands: same
    task table, same calls made, no timer of its own, and a cursor that has
    consumed the live history but for [TimerResolve] entries at its end. *)
Definition mirror (wL wR : World) : Prop :=
  w_isReplay wL = false
  ∧ w_isReplay wR = true
  ∧ w_tasks wR = w_tasks wL
  ∧ invoked wR = invoked wL
  ∧ pendingPromises wR = []
  ∧ (-1 ≤ w_replayIndex wR < Z.of_nat (length (w_history wL)))%Z
  ∧ Forall is_TimerResolve
      (entries_from (w_history wL) (w_replayIndex wR + 1)).

(** [mR], run in replay mode against a history that extends what [mL]
    records in live mode, gives what [mL] gives and keeps the two worlds in
    step. *)
Definition mirrors {A} (mL mR : M A) : Prop :=
  (∀ w, grows_live w (mL w).2)
  ∧ ∀ wL wR,
      mirror wL wR →
      w_history (mL wL).2 `prefix_of` w_history wR →
      (mR wR).1 = (mL wL).1
      ∧ mirror (mL wL).2 (mR wR).2
      ∧ w_history (mR wR).2 = w_history wR.

(** How a replayed [run] ends, next to the live one: in the same way, but
    that it returns where the live one waits for its timers. *)
Definition repeats (oL oR : Outcome) : Prop :=
  match oL, oR with
  | Returned wL, Returned wR | Waiting _ wL, Returned wR =>
      w_tasks wR = w_tasks wL ∧ invoked wR = invoked wL
  | Failed eL wL, Failed eR wR =>
      eR = eL ∧ w_tasks wR = w_tasks wL ∧ invoked wR = invoked wL
  | Unfinished jL wL, Unfinished jR wR =>
      jR = jL ∧ w_tasks wR = w_tasks wL ∧ invoked wR = invoked wL
  | _, _ => False
  end.

(** A task state as [run] writes it: [CREATED], or [RESOLVED] with a value
    that is not a task id and with no callback left. *)
Definition written_by_run (task : TaskState) : Prop :=
  match task with
  | CREATED _ => True
  | RESOLVED callbacks valueIsTaskId _ =>
      callbacks = [] ∧ valueIsTaskId = false
  | REJECTED _ _ => False
  end.

(** * Workflows and worlds used as examples *)

(** An isolate whose functions return [undefined] straight away. *)
Definition idle_isolate : nat → list value → Script :=
  λ _ _, SReturn false VUndefined.

Definition no_timer : nat → list nat := λ _, [].

(** A world whose task 1 is rejected. *)
Definition rejected_world : World :=
  set_tasks {[ 1%Z := REJECTED [] (VStr "boom") ]}
    (new_World [PromiseCreate; PromiseCreate; PromiseRegister 1 (CbThen 2 0)]).

(** The workflow
    [new Promise((resolve) => { resolve(1); resolve(2); }).then(f)]:
    the executor resolves its promise twice, then a callback is registered
    on it. *)
Definition resolves_twice : Script :=
  SNewPromise
    (λ taskId,
       SResolve taskId false (VNum 1) (λ _,
       SResolve taskId false (VNum 2) (λ _,
       SReturn false VUndefined)))
    (λ r, match r with
          | Ok taskId => SThen taskId 0 (λ _, SReturn false VUndefined)
          | Throw _ => SThrow "createPromise"
          end).

(** The world in which the loop is about to handle index 5, the
    [PromiseComplete] of task 0; task 3, created by [then], is pending. *)
Definition before_root_completion : World :=
  final_world (run idle_isolate 5 no_timer
                 (exec resolves_twice (new_World [])).2).

(** The loop is about to handle index 4, the registration on task 0, which
    is resolved by then. *)
Definition before_late_register : World :=
  final_world (run idle_isolate 4 no_timer
                 (exec resolves_twice (new_World [])).2).





(** A pending root, a promise [p] with three [then] and then its
    resolution with 42. *)
Definition three_thens : Script :=
  SNewPromise (λ _, SReturn false VUndefined) (λ _,
  SNewPromise (λ _, SReturn false VUndefined) (λ rp,
  match rp with
  | Ok p =>
      SThen p 1 (λ _,
      SThen p 2 (λ _,
      SThen p 3 (λ _,
      SResolve p false (VNum 42) (λ _,
      SReturn false VUndefined))))
  | Throw _ => SThrow "createPromise"
  end)).

(** The world in which the loop is about to handle index [n]. *)
Definition ordering_world (n : nat) : World :=
  final_world (run idle_isolate n no_timer
                 (exec three_thens (new_World [])).2).

(** [setTimeout(f, 10)]. *)
Definition one_timer : Script :=
  SSetTimeout 0 10 [] (λ _, SReturn false VUndefined).

(** Live: the loop is about to handle index [n]. *)
Definition timer_world (n : nat) : World :=
  final_world (run idle_isolate n no_timer (exec one_timer (new_World [])).2).

(** Replay of the history that the live run recorded. *)
Definition timer_replay : World :=
  (exec one_timer
     (new_World [TimerStart 10 (CbTimer 0 []); PromiseCreate;
                 PromiseRegister 1 (CbTimer 0 []);
                 TimerResolve 1 false VUndefined])).2.

(** An isolate whose function [k] throws; the others return [undefined]. *)
Definition throws_on (k : nat) : nat → list value → Script :=
  λ fn _, if decide (fn = k) then SThrow "boom"
          else SReturn false VUndefined.



(** The root is resolved with 1 and has a [then]; after that, a promise [p]
    gets three [then] and is resolved with 42. *)
Definition root_completes_first : Script :=
  SNewPromise (λ root, SResolve root false (VNum 1)
                         (λ _, SReturn false VUndefined)) (λ r0,
  match r0 with
  | Ok root =>
      SThen root 0 (λ _,
      SNewPromise (λ _, SReturn false VUndefined) (λ rp,
      match rp with
      | Ok p =>
          SThen p 1 (λ _,
          SThen p 2 (λ _,
          SThen p 3 (λ _,
          SResolve p false (VNum 42) (λ _,
          SReturn false VUndefined))))
      | Throw _ => SThrow "createPromise"
      end))
  | Throw _ => SThrow "createPromise"
  end).

(** What the live executions of [three_thens] and of [resolves_twice]
    record: the first before [run], the second with [run] to its end. *)
Definition recorded_three_thens : list Event :=
  Eval vm_compute in w_history (exec three_thens (new_World [])).2.

Definition recorded_resolves_twice : list Event :=
  Eval vm_compute in
    w_history (final_world (run idle_isolate 20 no_timer
                              (exec resolves_twice (new_World [])).2)).

(** * Properties *)

(** ** The cursor of a replay *)

Lemma fastForward_skips (rest : list Event) (i : Z) (n : nat) (e : Event) :
  (∀ k, k < n → ∃ e', rest !! k = Some e' ∧ type e' = "TimerResolve") →
  rest !! n = Some e →
  type e ≠ "TimerResolve" →
  fastForward rest i = ((i + Z.of_nat n)%Z, Some e).
Proof.
  revert rest i. induction n as [|n IH]; intros rest i Hskip Hn Hty.
  - destruct rest as [|e0 rest]; simplify_eq/=.
    rewrite bool_decide_eq_false_2 by done. f_equal. lia.
  - destruct rest as [|e0 rest]; simplify_eq/=.
    destruct (Hskip 0) as (e' & He' & Hty'); [lia|]. simplify_eq/=.
    rewrite bool_decide_eq_true_2 by done.
    rewrite (IH rest (i + 1)%Z); [f_equal; lia| |done..].
    intros k Hk. apply (Hskip (S k)). lia.
Qed.

Lemma history_at_entries_from (h : list Event) (i : Z) (n : nat) :
  (0 ≤ i)%Z → entries_from h i !! n = history_at h (i + Z.of_nat n).
Proof.
  intros Hi. unfold entries_from, history_at.
  rewrite !bool_decide_eq_true_2 by lia.
  rewrite lookup_drop. f_equal.
  rewrite Z2Nat.inj_add, Nat2Z.id by lia. done.
Qed.

Lemma lands_on_fastForward (h : list Event) (replayIndex j : Z) (e : Event) :
  lands_on h replayIndex j e →
  fastForward (entries_from h (replayIndex + 1)) (replayIndex + 1)%Z
  = (j, Some e).
Proof.
  intros (Hlt & Hskip & Hj & Hty).
  assert (0 ≤ replayIndex + 1)%Z as Hstart.
  { destruct (decide (0 ≤ replayIndex + 1)%Z) as [|Hneg]; [done|].
    destruct (decide (replayIndex + 1 = j)%Z) as [<-|Hne].
    - unfold history_at in Hj. by rewrite bool_decide_eq_false_2 in Hj.
    - destruct (Hskip (replayIndex + 1)%Z) as (e' & He' & _); [lia|].
      unfold history_at in He'. by rewrite bool_decide_eq_false_2 in He'. }
  replace j with (replayIndex + 1 + Z.of_nat (Z.to_nat (j - replayIndex - 1)))%Z
    by lia.
  apply fastForward_skips; [|rewrite history_at_entries_from by done|done].
  - intros k Hk. rewrite history_at_entries_from by done.
    apply Hskip. lia.
  - rewrite <- Hj. f_equal. lia.
Qed.

(** ** [enqueueEvent] *)

Lemma notify_timeline (w : World) : timeline (notify w) = timeline w.
Proof. unfold notify. by destruct (onEnqueue (timeline w)). Qed.

Lemma notify_isReplay (w : World) : w_isReplay (notify w) = w_isReplay w.
Proof. unfold w_isReplay. by rewrite notify_timeline. Qed.

Lemma notify_history (w : World) : w_history (notify w) = w_history w.
Proof. unfold w_history. by rewrite notify_timeline. Qed.

Lemma notify_replayIndex (w : World) :
  w_replayIndex (notify w) = w_replayIndex w.
Proof. unfold w_replayIndex. by rewrite notify_timeline. Qed.

Lemma notify_tasks (w : World) : w_tasks (notify w) = w_tasks w.
Proof. unfold w_tasks. by rewrite notify_timeline. Qed.

Lemma notify_pendingPromises (w : World) :
  pendingPromises (notify w) = pendingPromises w.
Proof. unfold notify. by destruct (onEnqueue (timeline w)). Qed.

Lemma notify_invoked (w : World) : invoked (notify w) = invoked w.
Proof. unfold notify. by destruct (onEnqueue (timeline w)). Qed.

Lemma enqueued_app (l1 l2 : list LogLine) :
  enqueued (l1 ++ l2) = enqueued l1 ++ enqueued l2.
Proof. apply omap_app. Qed.

Lemma notify_enqueued (w : World) :
  enqueued (console (notify w)) = enqueued (console w).
Proof.
  unfold notify. destruct (onEnqueue (timeline w)); [|done].
  simpl. rewrite enqueued_app. simpl. by rewrite app_nil_r.
Qed.

(** Projections of an updated world. *)
Ltac proj_simpl :=
  repeat (progress (
    unfold at_cursor, w_history, w_tasks, w_isReplay, w_replayIndex in *;
    cbn [timeline history state tasks isReplay replayIndex onEnqueue console
         pendingPromises invoked set_history set_state set_tasks
         set_replayIndex log set_pendingPromises record_call] in *;
    rewrite ?notify_timeline, ?notify_pendingPromises, ?notify_invoked,
      ?enqueued_app, ?notify_enqueued in *)).

Lemma enqueueEvent_live (event : Event) (w : World) :
  w_isReplay w = false →
  enqueueEvent event w
  = (Ok (Z.of_nat (length (w_history w))),
     set_history (w_history w ++ [event])
       (log (LogEnqueue (Z.of_nat (length (w_history w))) event) (notify w))).
Proof.
  intros Hlive. unfold enqueueEvent.
  rewrite notify_isReplay, Hlive. cbn zeta.
  by rewrite notify_history.
Qed.

Lemma enqueueEvent_replay (event : Event) (w : World) (j : Z)
    (historyEvent : Event) :
  w_isReplay w = true →
  lands_on (w_history w) (w_replayIndex w) j historyEvent →
  enqueueEvent event w
  = if bool_decide (type historyEvent ≠ type event) then
      (Throw (InvalidSchedulerState
                (ExpectedGot (type historyEvent) (type event) j)),
       at_cursor j event w)
    else if bool_decide (sanitizeEvent event = sanitizeEvent historyEvent) then
      (Ok j, set_history (<[Z.to_nat j := event]> (w_history w))
               (at_cursor j event w))
    else
      (Throw (AssertionError (sanitizeEvent event)
                             (sanitizeEvent historyEvent)),
       at_cursor j event w).
Proof.
  intros Hreplay Hland. unfold enqueueEvent.
  rewrite notify_isReplay, Hreplay. cbn zeta.
  rewrite notify_history, notify_replayIndex.
  rewrite (lands_on_fastForward _ _ _ _ Hland).
  by proj_simpl.
Qed.

(** When every entry after the cursor is a [TimerResolve] (or there is
    none), the loop of line 131 reads past the end of the array. *)
Lemma fastForward_exhausted (rest : list Event) (i : Z) :
  Forall (λ e, type e = "TimerResolve") rest →
  fastForward rest i = ((i + Z.of_nat (length rest))%Z, None).
Proof.
  intros Hall. revert i. induction Hall as [|e rest He _ IH]; intros i; simpl.
  - f_equal. lia.
  - rewrite bool_decide_eq_true_2 by done. rewrite IH. f_equal. lia.
Qed.

(** C4. In replay mode [enqueueEvent] moves the cursor past the
    [TimerResolve] entries that follow it; when the entry it lands on has
    the type and the sanitized payload of the incoming event, that entry is
    replaced by the incoming event and the cursor index is returned.  In
    live mode the event is appended whatever it is, and the index returned
    is the length the history had before. *)
Theorem enqueueEvent_append_contract (event : Event) (w : World) :
  (w_isReplay w = true →
   ∀ j historyEvent,
     lands_on (w_history w) (w_replayIndex w) j historyEvent →
     type historyEvent = type event →
     sanitizeEvent event = sanitizeEvent historyEvent →
     ∃ w', enqueueEvent event w = (Ok j, w')
           ∧ w_replayIndex w' = j
           ∧ w_history w' = <[Z.to_nat j := event]> (w_history w)
           ∧ history_at (w_history w') j = Some event
           ∧ w_tasks w' = w_tasks w
           ∧ w_isReplay w' = true)
  ∧ (w_isReplay w = false →
     ∃ w', enqueueEvent event w = (Ok (Z.of_nat (length (w_history w))), w')
           ∧ w_history w' = w_history w ++ [event]
           ∧ history_at (w_history w') (Z.of_nat (length (w_history w)))
             = Some event
           ∧ w_replayIndex w' = w_replayIndex w
           ∧ w_tasks w' = w_tasks w
           ∧ w_isReplay w' = false).
Proof.
  split.
  - intros Hreplay j historyEvent Hland Hty Hsan.
    rewrite (enqueueEvent_replay _ _ _ _ Hreplay Hland).
    rewrite bool_decide_eq_false_2 by (intros Hne; by apply Hne).
    rewrite bool_decide_eq_true_2 by done.
    eexists. split; [done|].
    destruct Hland as (Hlt & _ & Hj & _).
    unfold history_at in *. case_bool_decide; [|done].
    proj_simpl. repeat split; try done.
    apply list_lookup_insert_eq. by eapply lookup_lt_Some.
  - intros Hlive. rewrite (enqueueEvent_live _ _ Hlive).
    eexists. split; [done|].
    unfold history_at. rewrite bool_decide_eq_true_2 by lia.
    proj_simpl. repeat split; try done.
    rewrite Nat2Z.id. by rewrite list_lookup_middle.
Qed.

(** The replay witness: a recorded [TimerResolve] is fast-forwarded and the
    [PromiseCreate] behind it is matched. *)
Lemma enqueueEvent_append_contract_witness :
  (∃ w', enqueueEvent PromiseCreate
           (new_World [TimerResolve 5 false VUndefined; PromiseCreate])
         = (Ok 1%Z, w')
         ∧ w_replayIndex w' = 1%Z)
  ∧ (∃ w', enqueueEvent (PromiseResolve 0 false (VNum 3))
             (new_World []) = (Ok 0%Z, w')
           ∧ w_history w' = [PromiseResolve 0 false (VNum 3)]).
Proof.
  split.
  - destruct (proj1 (enqueueEvent_append_contract PromiseCreate
        (new_World [TimerResolve 5 false VUndefined; PromiseCreate]))
        eq_refl 1%Z PromiseCreate) as (w' & Hrun & Hidx & _);
      [|reflexivity|reflexivity|by exists w'].
    change (lands_on [TimerResolve 5 false VUndefined; PromiseCreate]
                     (-1) 1 PromiseCreate).
    split; [lia|]. split; [|done].
    intros k Hk. assert (k = 0%Z) as -> by lia.
    by exists (TimerResolve 5 false VUndefined).
  - destruct (proj2 (enqueueEvent_append_contract
        (PromiseResolve 0 false (VNum 3)) (new_World [])) eq_refl)
      as (w' & Hrun & Hh & _).
    by exists w'.
Defined.

(** C1, as the code has it.  A replaying [enqueueEvent] that lands on an
    entry of another type throws [InvalidSchedulerState], whose message
    gives the recorded type, the incoming type and the cursor index.  When
    the types agree and the sanitized payloads differ, what is thrown is the
    [AssertionError] of [assert.deepStrictEqual], which holds the two
    sanitized events and no index.  In both cases the history is left as it
    was and the cursor stays on the entry. *)
Theorem enqueueEvent_replay_mismatch (event : Event) (w : World) (j : Z)
    (historyEvent : Event) :
  w_isReplay w = true →
  lands_on (w_history w) (w_replayIndex w) j historyEvent →
  (type historyEvent ≠ type event →
   enqueueEvent event w
   = (Throw (InvalidSchedulerState
               (ExpectedGot (type historyEvent) (type event) j)),
      at_cursor j event w))
  ∧ (type historyEvent = type event →
     sanitizeEvent event ≠ sanitizeEvent historyEvent →
     enqueueEvent event w
     = (Throw (AssertionError (sanitizeEvent event)
                              (sanitizeEvent historyEvent)),
        at_cursor j event w))
  ∧ w_history (at_cursor j event w) = w_history w
  ∧ w_replayIndex (at_cursor j event w) = j.
Proof.
  intros Hreplay Hland.
  rewrite (enqueueEvent_replay _ _ _ _ Hreplay Hland).
  repeat split.
  - intros Hne. by rewrite bool_decide_eq_true_2.
  - intros Heq Hsan.
    rewrite bool_decide_eq_false_2 by (intros Hne; by apply Hne).
    by rewrite bool_decide_eq_false_2.
  - by proj_simpl.
Qed.

Lemma enqueueEvent_replay_mismatch_witness :
  enqueueEvent (PromiseRegister 0 (CbForward 1)) (new_World [PromiseCreate])
  = (Throw (InvalidSchedulerState
              (ExpectedGot "PromiseCreate" "PromiseRegister" 0)),
     at_cursor 0 (PromiseRegister 0 (CbForward 1)) (new_World [PromiseCreate])).
Proof.
  apply (enqueueEvent_replay_mismatch (PromiseRegister 0 (CbForward 1))
           (new_World [PromiseCreate]) 0 PromiseCreate); [reflexivity| |done].
  change (lands_on [PromiseCreate] (-1) 0 PromiseCreate).
  split; [lia|]. split; [|done].
  intros k Hk. lia.
Defined.

(** C1, as the claim states it, fails when only the payload differs: the
    error thrown is not one that names the event types and the index. *)
Lemma enqueueEvent_payload_mismatch_counterexample :
  w_isReplay (new_World [PromiseResolve 1 false (VNum 42)]) = true
  ∧ lands_on [PromiseResolve 1 false (VNum 42)] (-1) 0
             (PromiseResolve 1 false (VNum 42))
  ∧ sanitizeEvent (PromiseResolve 1 false (VNum 7))
    ≠ sanitizeEvent (PromiseResolve 1 false (VNum 42))
  ∧ (enqueueEvent (PromiseResolve 1 false (VNum 7))
       (new_World [PromiseResolve 1 false (VNum 42)])).1
    = Throw (AssertionError (SPromiseResolve 1 false (VNum 7))
                            (SPromiseResolve 1 false (VNum 42)))
  ∧ ¬ ∃ expected actual index,
        (enqueueEvent (PromiseResolve 1 false (VNum 7))
           (new_World [PromiseResolve 1 false (VNum 42)])).1
        = Throw (InvalidSchedulerState (ExpectedGot expected actual index)).
Proof.
  split; [done|]. split.
  { split; [lia|]. split; [|done]. intros k Hk. lia. }
  split; [done|]. split; [done|].
  intros (expected & actual & index & Heq). discriminate Heq.
Qed.

(** ** What [enqueueEvent] and the code of the isolate leave alone *)

(** A relation between the world before and the world after that is a
    preorder and holds across one [enqueueEvent] holds across everything
    built from [enqueueEvent]: the host functions and any code of the
    isolate.  With the further hypotheses of the section it holds across the
    handling of an event. *)
Section Frame.

Variable R : World → World → Prop.
Hypothesis R_refl : ∀ w, R w w.
Hypothesis R_trans : ∀ w1 w2 w3, R w1 w2 → R w2 w3 → R w1 w3.
Hypothesis R_enqueue : ∀ event w, R w (enqueueEvent event w).2.

Lemma bind_frame {A B} (m : M A) (k : A → M B) (w : World) :
  R w (m w).2 →
  (∀ a w', m w = (Ok a, w') → R w' (k a w').2) →
  R w (bind m k w).2.
Proof.
  intros Hm Hk. unfold bind. destruct (m w) as [[a|e] w'] eqn:Hmw; simpl in *.
  - eapply R_trans; [exact Hm|by apply Hk].
  - exact Hm.
Qed.

Lemma try_frame {A} (m : M A) (w : World) : R w (m w).2 → R w (try_ m w).2.
Proof. unfold try_. by destruct (m w). Qed.

Lemma exec_frame (p : Script) (w : World) : R w (exec p w).2.
Proof.
  revert w.
  induction p as [b v|msg|executor IHe k IHk|taskId b v k IHk
                  |taskId fn k IHk|fn ms args k IHk]; intros w; simpl.
  - apply R_refl.
  - apply R_refl.
  - apply bind_frame; [|intros; apply IHk].
    apply try_frame. unfold createPromise.
    apply bind_frame; [apply R_enqueue|]. intros taskId w1 _.
    apply bind_frame; [|intros; apply R_refl].
    apply bind_frame; [apply IHe|intros; apply R_refl].
  - apply bind_frame; [|intros; apply IHk].
    apply try_frame. unfold resolve.
    apply bind_frame; [apply R_enqueue|intros; apply R_refl].
  - apply bind_frame; [|intros; apply IHk].
    apply try_frame. unfold then_.
    apply bind_frame; [apply R_enqueue|]. intros nextTaskId w1 _.
    apply bind_frame; [apply R_enqueue|intros; apply R_refl].
  - apply bind_frame; [|intros; apply IHk].
    apply try_frame. apply R_enqueue.
Qed.

Variable isolate : nat → list value → Script.

Lemma call_frame (callback : Callback) (b : bool) (v : value) (w : World) :
  R w (call isolate callback b v w).2.
Proof.
  destruct callback as [taskId|nextTaskId fn|fn args]; simpl.
  - apply bind_frame; [apply R_enqueue|intros; apply R_refl].
  - apply bind_frame; [apply exec_frame|]. intros r w1 _.
    apply bind_frame; [apply R_enqueue|intros; apply R_refl].
  - apply bind_frame; [apply exec_frame|intros; apply R_refl].
Qed.

Lemma getTaskState_frame (taskId : Z) (w : World) :
  R w (getTaskState taskId w).2.
Proof. unfold getTaskState. destruct (w_tasks w !! taskId); apply R_refl. Qed.

Lemma getTaskState_Ok (taskId : Z) (w w' : World) (task : TaskState) :
  getTaskState taskId w = (Ok task, w') →
  w' = w ∧ w_tasks w !! taskId = Some task.
Proof.
  unfold getTaskState. destruct (w_tasks w !! taskId); intros; by simplify_eq.
Qed.

(** [callback(...)] is recorded, for each callback of the batch. *)
Hypothesis R_record_call : ∀ i w, R w (record_call i w).

Lemma call_all_frame (callbacks : list Callback) (b : bool) (v : value)
    (w : World) :
  R w (call_all isolate callbacks b v w).2.
Proof.
  revert w. induction callbacks as [|callback rest IH]; intros w; simpl.
  - apply R_refl.
  - apply bind_frame; [apply R_record_call|]. intros _ w1 _.
    apply bind_frame; [apply call_frame|]. intros _ w2 _. apply IH.
Qed.

(** A timer that may elapse settles its promise; a timer that starts pushes
    one. *)
Variable can_fire : nat → Prop.
Hypothesis R_settle : ∀ k w,
  can_fire k → R w (set_pendingPromises (settle k (pendingPromises w)) w).
Hypothesis R_push : ∀ p w,
  R w (set_pendingPromises (pendingPromises w ++ [p]) w).

Lemma fire_frame (k : nat) (w : World) : can_fire k → R w (fire k w).
Proof.
  intros Hk.
  unfold fire. destruct (pendingPromises w !! k) as [p|]; [|apply R_refl].
  destruct (pp_settled p); [apply R_refl|].
  pose proof (R_enqueue (TimerResolve (pp_taskId p) false VUndefined) w) as H.
  destruct (enqueueEvent _ w) as [r w']. simpl in H.
  eapply R_trans; [exact H|by apply R_settle].
Qed.

Lemma yield_frame (fired : list nat) (w : World) :
  Forall can_fire fired → R w (yield fired w).2.
Proof.
  intros Hfired. unfold yield, modify. simpl. revert w.
  induction Hfired as [|k fired Hk _ IH]; intros w; simpl; [apply R_refl|].
  eapply R_trans; [by apply fire_frame|apply IH].
Qed.

(** The task table is written at a key it holds, or at the index of a
    [PromiseCreate]. *)
Hypothesis R_tasks_update : ∀ taskId task w,
  is_Some (w_tasks w !! taskId) → R w (tasks_set taskId task w).2.

Lemma handle_frame (fired : list nat) (eventIndex : nat) (event : Event)
    (w : World) :
  Forall can_fire fired →
  (event = PromiseCreate →
   ∀ w, R w (tasks_set (Z.of_nat eventIndex) (CREATED []) w).2) →
  R w (handle isolate fired eventIndex event w).2.
Proof.
  intros Hfired Hcreate.
  assert (∀ (taskId : Z) (b : bool) (v : value), R w ((
    let* task := getTaskState taskId in
    if b then
      match v with
      | VNum target =>
          enqueueEvent (PromiseRegister target (CbForward taskId)) ;;;
          ret Continue
      | _ => throw (NotANumber v)
      end
    else
      tasks_set taskId (RESOLVED [] false v) ;;;
      yield fired ;;;
      (if bool_decide (0 < length (callbacks_of task)) then
         enqueueEvent (PromiseComplete taskId false v (callbacks_of task)) ;;;
         ret tt
       else ret tt) ;;;
      ret Continue) w).2) as Hresolve.
  { intros taskId b v.
    apply bind_frame; [apply getTaskState_frame|].
    intros task w1 [-> Htask]%getTaskState_Ok. destruct b.
    - destruct v; try apply R_refl.
      apply bind_frame; [apply R_enqueue|intros; apply R_refl].
    - apply bind_frame; [by apply R_tasks_update|]. intros _ w2 _.
      apply bind_frame; [by apply yield_frame|]. intros _ w3 _.
      apply bind_frame; [|intros; apply R_refl].
      case_bool_decide; [|apply R_refl].
      apply bind_frame; [apply R_enqueue|intros; apply R_refl]. }
  destruct event as [taskId b v callbacks| |taskId callback|taskId b v
                     |ms callback|taskId b v]; unfold handle.
  - apply bind_frame; [apply call_all_frame|]. intros _ w1 _.
    case_bool_decide; apply R_refl.
  - apply bind_frame; [by apply Hcreate|intros; apply R_refl].
  - apply bind_frame; [apply getTaskState_frame|].
    intros [cbs|cbs b v|cbs err] w1 [-> Htask]%getTaskState_Ok.
    + apply bind_frame; [by apply R_tasks_update|intros; apply R_refl].
    + apply bind_frame; [by apply yield_frame|]. intros _ w2 _.
      apply bind_frame; [apply R_enqueue|intros; apply R_refl].
    + apply R_refl.
  - apply Hresolve.
  - apply bind_frame; [apply R_enqueue|]. intros taskId w1 _.
    apply bind_frame; [apply R_enqueue|]. intros _ w2 _.
    apply bind_frame; [|intros; apply R_refl].
    destruct (w_isReplay w2); simpl; [apply R_refl|].
    apply R_push.
  - apply Hresolve.
Qed.

End Frame.

(** ** Instances of the frame *)

Lemma fastForward_sound (rest : list Event) (i j : Z) (e : Event) :
  fastForward rest i = (j, Some e) →
  ∃ n : nat,
    j = (i + Z.of_nat n)%Z
    ∧ rest !! n = Some e
    ∧ type e ≠ "TimerResolve"
    ∧ ∀ k, k < n → ∃ e', rest !! k = Some e' ∧ type e' = "TimerResolve".
Proof.
  revert i. induction rest as [|e0 rest IH]; intros i; simpl; [done|].
  case_bool_decide as Hty.
  - intros (n & -> & Hn & Hne & Hskip)%IH.
    exists (S n). split; [lia|]. split; [done|]. split; [done|].
    intros [|k] Hk; [by exists e0|]. apply Hskip. lia.
  - intros [= <- <-]. exists 0. split; [lia|]. split; [done|]. split; [done|].
    intros k Hk. lia.
Qed.

Lemma fastForward_lands_on (h : list Event) (replayIndex j : Z) (e : Event) :
  fastForward (entries_from h (replayIndex + 1)) (replayIndex + 1)%Z
  = (j, Some e) →
  lands_on h replayIndex j e.
Proof.
  intros (n & -> & Hn & Hne & Hskip)%fastForward_sound.
  assert (0 ≤ replayIndex + 1)%Z as Hstart.
  { unfold entries_from in Hn. by case_bool_decide. }
  split; [lia|]. split; [|split; [|done]].
  - intros k Hk.
    destruct (Hskip (Z.to_nat (k - (replayIndex + 1)))) as (e' & He' & Hty');
      [lia|].
    exists e'. split; [|done].
    rewrite history_at_entries_from in He' by done.
    rewrite <- He'. f_equal. lia.
  - by rewrite <- history_at_entries_from.
Qed.

(** Every way [enqueueEvent] can end, with what it did to the world. *)
Lemma enqueueEvent_cases (event : Event) (w : World) :
  (w_isReplay w = false
   ∧ enqueueEvent event w
     = (Ok (Z.of_nat (length (w_history w))),
        set_history (w_history w ++ [event])
          (log (LogEnqueue (Z.of_nat (length (w_history w))) event)
               (notify w))))
  ∨ (w_isReplay w = true
     ∧ ∃ j, enqueueEvent event w = (Throw TypeError, set_replayIndex j (notify w)))
  ∨ (w_isReplay w = true
     ∧ ∃ j historyEvent,
         lands_on (w_history w) (w_replayIndex w) j historyEvent
         ∧ ((type historyEvent = type event
             ∧ sanitizeEvent event = sanitizeEvent historyEvent
             ∧ enqueueEvent event w
               = (Ok j, set_history (<[Z.to_nat j := event]> (w_history w))
                          (at_cursor j event w)))
            ∨ ∃ e, enqueueEvent event w = (Throw e, at_cursor j event w))).
Proof.
  destruct (w_isReplay w) eqn:Hreplay.
  - right.
    destruct (fastForward (entries_from (w_history w) (w_replayIndex w + 1))
                (w_replayIndex w + 1)%Z) as [j [historyEvent|]] eqn:Hff.
    + right. split; [done|]. exists j, historyEvent.
      apply fastForward_lands_on in Hff as Hland. split; [done|].
      rewrite (enqueueEvent_replay _ _ _ _ Hreplay Hland).
      case_bool_decide as Hty; [right; by eexists|].
      case_bool_decide as Hsan; [left|right; by eexists].
      split; [|done]. by destruct (decide (type historyEvent = type event)).
    + left. split; [done|]. exists j. unfold enqueueEvent.
      rewrite notify_isReplay, Hreplay. cbn zeta.
      by rewrite notify_history, notify_replayIndex, Hff.
  - left. split; [done|]. by apply enqueueEvent_live.
Qed.

Lemma types_kept_refl (w : World) : types_kept w w.
Proof. intros n e Hn. by exists e. Qed.

Lemma types_kept_trans (w1 w2 w3 : World) :
  types_kept w1 w2 → types_kept w2 w3 → types_kept w1 w3.
Proof.
  intros H12 H23 n e Hn.
  destruct (H12 n e Hn) as (e2 & Hn2 & Hty2).
  destruct (H23 n e2 Hn2) as (e3 & Hn3 & Hty3).
  exists e3. split; [done|congruence].
Qed.

Lemma types_kept_same_history (w w' : World) :
  w_history w' = w_history w → types_kept w w'.
Proof. intros Heq n e Hn. exists e. by rewrite Heq. Qed.

Lemma enqueueEvent_types_kept (event : Event) (w : World) :
  types_kept w (enqueueEvent event w).2.
Proof.
  destruct (enqueueEvent_cases event w)
    as [[_ ->]|[[_ [j ->]]|[_ (j & hE & Hland & [(Hty & _ & ->)|[e ->]])]]];
    simpl.
  - intros n e Hn. exists e. split; [|done]. proj_simpl.
    by apply lookup_app_l_Some.
  - apply types_kept_same_history. by proj_simpl.
  - intros n e Hn. proj_simpl.
    destruct Hland as (_ & _ & Hj & _). unfold history_at in Hj.
    case_bool_decide; [|done]. proj_simpl.
    destruct (decide (n = Z.to_nat j)) as [->|Hne].
    + exists event. rewrite list_lookup_insert_eq by by eapply lookup_lt_Some.
      split; [done|congruence].
    + exists e. by rewrite list_lookup_insert_ne.
  - apply types_kept_same_history. by proj_simpl.
Qed.

Lemma same_refl {A} (f : World → A) (w : World) : same f w w.
Proof. done. Qed.

Lemma same_trans {A} (f : World → A) (w1 w2 w3 : World) :
  same f w1 w2 → same f w2 w3 → same f w1 w3.
Proof. unfold same. congruence. Qed.

Lemma enqueueEvent_same (event : Event) (w : World) :
  same w_tasks w (enqueueEvent event w).2
  ∧ same w_isReplay w (enqueueEvent event w).2
  ∧ same pendingPromises w (enqueueEvent event w).2
  ∧ same invoked w (enqueueEvent event w).2.
Proof.
  unfold same.
  destruct (enqueueEvent_cases event w)
    as [[_ ->]|[[_ [j ->]]|[_ (j & hE & Hland & [(Hty & _ & ->)|[e ->]])]]];
    simpl; proj_simpl;
    by rewrite ?notify_pendingPromises, ?notify_invoked.
Qed.

Lemma handle_types_kept (isolate : nat → list value → Script)
    (fired : list nat) (eventIndex : nat) (event : Event) (w : World) :
  types_kept w (handle isolate fired eventIndex event w).2.
Proof.
  apply handle_frame with (can_fire := λ _, True);
    try (intros; by apply types_kept_same_history).
  - apply types_kept_trans.
  - apply enqueueEvent_types_kept.
  - by apply Forall_true.
Qed.

Lemma handle_same_isReplay (isolate : nat → list value → Script)
    (fired : list nat) (eventIndex : nat) (event : Event) (w : World) :
  same w_isReplay w (handle isolate fired eventIndex event w).2.
Proof.
  apply handle_frame with (can_fire := λ _, True); try done.
  - apply same_trans.
  - intros. apply enqueueEvent_same.
  - by apply Forall_true.
Qed.

Lemma call_same_invoked (isolate : nat → list value → Script)
    (callback : Callback) (b : bool) (v : value) (w : World) :
  same invoked w (call isolate callback b v w).2.
Proof.
  apply call_frame; [done|apply same_trans|].
  intros. apply enqueueEvent_same.
Qed.

Lemma call_all_same_tasks (isolate : nat → list value → Script)
    (callbacks : list Callback) (b : bool) (v : value) (w : World) :
  same w_tasks w (call_all isolate callbacks b v w).2.
Proof.
  apply call_all_frame; [done|apply same_trans| |done].
  intros. apply enqueueEvent_same.
Qed.

Lemma call_all_same_pendingPromises (isolate : nat → list value → Script)
    (callbacks : list Callback) (b : bool) (v : value) (w : World) :
  same pendingPromises w (call_all isolate callbacks b v w).2.
Proof.
  apply call_all_frame; [done|apply same_trans| |done].
  intros. apply enqueueEvent_same.
Qed.

(** ** Registration on a rejected task *)

(** C10. Handling a [PromiseRegister] whose task is [REJECTED] changes
    nothing: the callback is not called ([invoked] is as before), it is not
    added to the task's callbacks (the task table is as before) and no
    [PromiseComplete] is enqueued (history and console are as before). *)
Theorem register_on_rejected_is_discarded
    (isolate : nat → list value → Script) (fired : list nat)
    (eventIndex : nat) (taskId : Z) (callback : Callback)
    (callbacks : list Callback) (error : value) (w : World) :
  w_tasks w !! taskId = Some (REJECTED callbacks error) →
  handle isolate fired eventIndex (PromiseRegister taskId callback) w
  = (Ok Continue, w).
Proof.
  intros Htask. unfold handle, bind, getTaskState. by rewrite Htask.
Qed.

Lemma register_on_rejected_is_discarded_witness :
  handle (λ _ _, SReturn false VUndefined) [] 2
    (PromiseRegister 1 (CbThen 2 0)) rejected_world
  = (Ok Continue, rejected_world).
Proof.
  apply (register_on_rejected_is_discarded _ [] 2 1 (CbThen 2 0) []
           (VStr "boom")).
  reflexivity.
Defined.

(** ** Root completion *)

Lemma run_from_step (isolate : nat → list value → Script) (fuel : nat)
    (sched : nat → list nat) (eventIndex : nat) (event : Event) (w : World) :
  w_history w !! eventIndex = Some event →
  run_from isolate (S fuel) sched eventIndex w
  = match step isolate (sched eventIndex) eventIndex event w with
    | (Throw e, w') => Failed e w'
    | (Ok Return, w') => Returned w'
    | (Ok Continue, w') => run_from isolate fuel sched (S eventIndex) w'
    end.
Proof. intros Hev. simpl. by rewrite Hev. Qed.

(** C5, as the code has it.  When the event at [eventIndex] is a
    [PromiseComplete] for task 0, [run] calls its callbacks.  When they all
    return, [run] returns at once: it handles no later event and waits for
    no timer, whatever the task table holds (tasks still [CREATED]
    included) and whatever timers are pending.  When one of them throws,
    [run] fails with that exception.  Either way the task table and the
    pending promises are as they were. *)
Theorem root_completion_returns (isolate : nat → list value → Script)
    (fuel : nat) (sched : nat → list nat) (eventIndex : nat)
    (valueIsTaskId : bool) (v : value) (callbacks : list Callback)
    (w : World) :
  w_history w !! eventIndex
  = Some (PromiseComplete 0 valueIsTaskId v callbacks) →
  ∃ r w',
    call_all isolate callbacks valueIsTaskId v
      (log (LogHandle (Z.of_nat eventIndex)
              (PromiseComplete 0 valueIsTaskId v callbacks)) w)
    = (r, w')
    ∧ run_from isolate (S fuel) sched eventIndex w
      = match r with
        | Ok _ => Returned w'
        | Throw e => Failed e w'
        end
    ∧ w_tasks w' = w_tasks w
    ∧ pendingPromises w' = pendingPromises w.
Proof.
  intros Hev.
  pose proof (call_all_same_tasks isolate callbacks valueIsTaskId v
      (log (LogHandle (Z.of_nat eventIndex)
          (PromiseComplete 0 valueIsTaskId v callbacks)) w)) as Ht.
  pose proof (call_all_same_pendingPromises isolate callbacks valueIsTaskId v
      (log (LogHandle (Z.of_nat eventIndex)
          (PromiseComplete 0 valueIsTaskId v callbacks)) w)) as Hp.
  destruct (call_all isolate callbacks valueIsTaskId v _) as [r w'] eqn:Hcalls.
  exists r, w'. split; [done|]. split; [|by split].
  rewrite (run_from_step _ _ _ _ _ _ Hev).
  unfold step, handle, bind, modify. rewrite Hcalls. by destruct r.
Qed.

(** C5, as the claim states it, fails on the workflow [resolves_twice] when
    the function given to [then] throws: the loop comes to the
    [PromiseComplete] of task 0 at index 5, calls that callback, and [run]
    fails with its exception. *)
Lemma root_callback_throws_counterexample :
  w_history before_root_completion !! 5
  = Some (PromiseComplete 0 false (VNum 2) [CbThen 3 0])
  ∧ (∃ w', run_from (throws_on 0) 1 no_timer 5 before_root_completion
           = Failed (IsolateError "boom") w')
  ∧ (∃ w', run (throws_on 0) 20 no_timer
             (exec resolves_twice (new_World [])).2
           = Failed (IsolateError "boom") w'
           ∧ handled (console w') = [0; 1; 2; 3; 4; 5]%Z).
Proof.
  split; [by vm_compute|]. split; eexists; [by vm_compute|].
  split; by vm_compute.
Qed.

(** ** Timers *)

(** A successful [enqueueEvent] leaves the event at the index it returns,
    and shows it once on the console. *)
Lemma enqueueEvent_Ok (event : Event) (w w' : World) (i : Z) :
  enqueueEvent event w = (Ok i, w') →
  history_at (w_history w') i = Some event
  ∧ enqueued (console w') = enqueued (console w) ++ [event]
  ∧ (w_isReplay w = true →
     (w_replayIndex w < i)%Z ∧ w_replayIndex w' = i
     ∧ w_history w' = <[Z.to_nat i := event]> (w_history w)).
Proof.
  destruct (enqueueEvent_cases event w)
    as [[Hlive ->]|[[_ [j ->]]|[_ (j & hE & Hland & [(Hty & _ & ->)|[e ->]])]]];
    intros [= <- <-]; proj_simpl.
  - unfold history_at. rewrite bool_decide_eq_true_2 by lia.
    proj_simpl. rewrite Nat2Z.id, list_lookup_middle by done.
    split; [done|]. split; [done|by rewrite Hlive].
  - destruct Hland as (Hlt & _ & Hj & _). unfold history_at in *.
    case_bool_decide; [|done]. proj_simpl.
    rewrite list_lookup_insert_eq by by eapply lookup_lt_Some.
    done.
Qed.

(** A started timer that elapses in live mode appends its [TimerResolve]. *)
Lemma fire_live (k : nat) (p : PendingPromise) (w : World) :
  w_isReplay w = false →
  pendingPromises w !! k = Some p →
  pp_settled p = false →
  w_history (fire k w)
  = w_history w ++ [TimerResolve (pp_taskId p) false VUndefined]
  ∧ pendingPromises (fire k w)
    = <[k := {| pp_taskId := pp_taskId p; pp_ms := pp_ms p;
                pp_settled := true |}]> (pendingPromises w).
Proof.
  intros Hlive Hk Hp. unfold fire. rewrite Hk, Hp.
  rewrite (enqueueEvent_live _ _ Hlive). proj_simpl.
  unfold settle. by rewrite Hk.
Qed.

(** C8. Handling a [TimerStart] gives two events to [enqueueEvent], a
    [PromiseCreate] and then a [PromiseRegister] of the timer's callback on
    the task just created, and no other.  In live mode it also pushes one
    pending wait for that task, and a wait for a task that elapses in live
    mode appends a [TimerResolve] for it.  In replay mode the list of
    pending waits is left as it was, whether the two events match the
    history or not. *)
Theorem timerStart_synthesis (isolate : nat → list value → Script)
    (fired : list nat) (eventIndex : nat) (ms : Z) (callback : Callback)
    (w : World) :
  (w_isReplay w = false →
   ∃ w' taskId,
     handle isolate fired eventIndex (TimerStart ms callback) w
     = (Ok Continue, w')
     ∧ taskId = Z.of_nat (length (w_history w))
     ∧ w_history w'
       = w_history w ++ [PromiseCreate; PromiseRegister taskId callback]
     ∧ enqueued (console w')
       = enqueued (console w) ++ [PromiseCreate; PromiseRegister taskId callback]
     ∧ pendingPromises w'
       = pendingPromises w
         ++ [{| pp_taskId := taskId; pp_ms := ms; pp_settled := false |}]
     ∧ ∀ k w2,
         w_isReplay w2 = false →
         pendingPromises w2 !! k
         = Some {| pp_taskId := taskId; pp_ms := ms; pp_settled := false |} →
         w_history (fire k w2)
         = w_history w2 ++ [TimerResolve taskId false VUndefined])
  ∧ (w_isReplay w = true →
     ∀ r w',
       handle isolate fired eventIndex (TimerStart ms callback) w = (r, w') →
       pendingPromises w' = pendingPromises w
       ∧ (r = Ok Continue →
          ∃ taskId,
            enqueued (console w')
            = enqueued (console w)
              ++ [PromiseCreate; PromiseRegister taskId callback]
            ∧ history_at (w_history w') taskId = Some PromiseCreate
            ∧ history_at (w_history w') (w_replayIndex w')
              = Some (PromiseRegister taskId callback))).
Proof.
  split.
  - intros Hlive. unfold handle, bind.
    rewrite (enqueueEvent_live _ _ Hlive).
    rewrite enqueueEvent_live by (proj_simpl; by rewrite Hlive).
    proj_simpl. rewrite Hlive. cbn [ret].
    eexists _, _. split; [reflexivity|]. split; [reflexivity|]. proj_simpl.
    rewrite <- !app_assoc.
    split; [done|]. split; [done|]. split; [done|].
    intros k w2 Hlive2 Hk.
    destruct (fire_live k _ w2 Hlive2 Hk eq_refl) as [Hfire _]. exact Hfire.
  - intros Hreplay r w'. unfold handle, bind.
    destruct (enqueueEvent PromiseCreate w) as [[taskId|e] w1] eqn:H1.
    2:{ intros [= <- <-].
        destruct (enqueueEvent_same PromiseCreate w) as (_ & _ & Hp & _).
        rewrite H1 in Hp. done. }
    destruct (enqueueEvent (PromiseRegister taskId callback) w1)
      as [[j|e] w2] eqn:H2.
    2:{ intros [= <- <-].
        destruct (enqueueEvent_same PromiseCreate w) as (_ & _ & Hp & _).
        destruct (enqueueEvent_same (PromiseRegister taskId callback) w1)
          as (_ & _ & Hp2 & _).
        rewrite H1 in Hp. rewrite H2 in Hp2. unfold same in *. simpl in *.
        split; [congruence|done]. }
    destruct (enqueueEvent_same PromiseCreate w) as (_ & Hr1 & Hp1 & _).
    destruct (enqueueEvent_same (PromiseRegister taskId callback) w1)
      as (_ & Hr2 & Hp2 & _).
    rewrite H1 in Hr1, Hp1. rewrite H2 in Hr2, Hp2.
    unfold same in *. simpl in *.
    assert (w_isReplay w2 = true) as -> by congruence.
    intros [= <- <-]. split; [congruence|]. intros _. exists taskId.
    destruct (enqueueEvent_Ok _ _ _ _ H1) as (Hat1 & Hc1 & Hidx1).
    destruct (enqueueEvent_Ok _ _ _ _ H2) as (Hat2 & Hc2 & Hidx2).
    destruct Hidx1 as (_ & Hidx1 & _); [done|].
    destruct Hidx2 as (Hlt & Hidx2 & Hh2); [congruence|].
    rewrite Hc2, Hc1, <- app_assoc. split; [done|].
    rewrite Hidx2. split; [|done].
    assert (0 ≤ taskId)%Z as Hpos.
    { unfold history_at in Hat1. by case_bool_decide. }
    rewrite Hh2. unfold history_at in *.
    rewrite bool_decide_eq_true_2 in * by done.
    rewrite list_lookup_insert_ne by lia. done.
Qed.

(** ** Task ids *)

Lemma adds_only_same (eventIndex : nat) (event : Event) (w w' : World) :
  types_kept w w' → w_tasks w' = w_tasks w →
  adds_only eventIndex event w w'.
Proof. intros Hty Ht. split; [done|]. intros k. rewrite Ht. by left. Qed.

Lemma handle_adds_only (isolate : nat → list value → Script)
    (fired : list nat) (eventIndex : nat) (event : Event) (w : World) :
  adds_only eventIndex event w (handle isolate fired eventIndex event w).2.
Proof.
  apply handle_frame with (can_fire := λ _, True).
  - intros w0. by apply adds_only_same; [apply types_kept_refl|].
  - intros w1 w2 w3 [Hty12 H12] [Hty23 H23].
    split; [by eapply types_kept_trans|].
    intros k [Hk|Hk]%H23; [by apply H12|by right].
  - intros ev w0. apply adds_only_same;
      [apply enqueueEvent_types_kept|apply enqueueEvent_same].
  - intros i w0. by apply adds_only_same; [apply types_kept_same_history|].
  - intros k w0 _. by apply adds_only_same; [apply types_kept_same_history|].
  - intros p w0. by apply adds_only_same; [apply types_kept_same_history|].
  - intros taskId task w0 Hsome. split; [by apply types_kept_same_history|].
    intros k. simpl. proj_simpl.
    destruct (decide (taskId = k)) as [<-|Hne]; [by left|].
    rewrite lookup_insert_ne by done. by left.
  - by apply Forall_true.
  - intros -> w0. split; [by apply types_kept_same_history|].
    intros k. simpl. proj_simpl.
    destruct (decide (Z.of_nat eventIndex = k)) as [<-|Hne]; [by right|].
    rewrite lookup_insert_ne by done. by left.
Qed.

Lemma handle_keeps_task_ids (isolate : nat → list value → Script)
    (fired : list nat) (eventIndex : nat) (event : Event) (w : World) :
  w_history w !! eventIndex = Some event →
  task_ids_are_create_indices w →
  task_ids_are_create_indices (handle isolate fired eventIndex event w).2.
Proof.
  intros Hev Hinv taskId task Htask.
  destruct (handle_adds_only isolate fired eventIndex event w) as [Hty Hadd].
  destruct (Hadd taskId) as [[task0 Hold]|[-> ->]]; [by eexists|..].
  - destruct (Hinv _ _ Hold) as (n & e & -> & Hn & Hcreate).
    destruct (Hty _ _ Hn) as (e' & Hn' & Hty'). exists n, e'.
    split; [done|]. split; [done|congruence].
  - destruct (Hty _ _ Hev) as (e' & Hn' & Hty'). by exists eventIndex, e'.
Qed.

Lemma run_from_keeps_task_ids (isolate : nat → list value → Script)
    (fuel : nat) (sched : nat → list nat) (eventIndex : nat) (w : World) :
  task_ids_are_create_indices w →
  task_ids_are_create_indices
    (final_world (run_from isolate fuel sched eventIndex w)).
Proof.
  revert eventIndex w. induction fuel as [|fuel IH]; intros eventIndex w Hinv;
    [done|].
  simpl. destruct (w_history w !! eventIndex) as [event|] eqn:Hev.
  - pose proof (handle_keeps_task_ids isolate (sched eventIndex) eventIndex
                  event (log (LogHandle (Z.of_nat eventIndex) event) w)
                  Hev Hinv) as Hstep.
    unfold step, bind, modify.
    destruct (handle isolate (sched eventIndex) eventIndex event _)
      as [[[]|e] w']; simpl in *; [by apply IH|done..].
  - by case_bool_decide.
Qed.

Lemma exec_types_kept (p : Script) (w : World) :
  types_kept w (exec p w).2.
Proof.
  apply exec_frame;
    [apply types_kept_refl|apply types_kept_trans|apply enqueueEvent_types_kept].
Qed.

Lemma exec_same_tasks (p : Script) (w : World) :
  same w_tasks w (exec p w).2.
Proof.
  apply exec_frame; [done|apply same_trans|].
  intros. apply enqueueEvent_same.
Qed.

(** C9. The index that [enqueueEvent] returns for a [PromiseCreate] is
    where that event sits in the history; in any later world (entries keep
    their types) the run loop, coming to that index, installs [CREATED]
    under that very index.  The task id that [createPromise] hands to the
    isolate is such an index, whatever the executor did meanwhile.  And in
    every world that a run reaches from a new timeline, in live or in replay
    mode, each key of the task table is the index of a [PromiseCreate]
    entry. *)
Theorem task_id_is_create_index (isolate : nat → list value → Script) :
  (∀ w w1 taskId,
     enqueueEvent PromiseCreate w = (Ok taskId, w1) →
     history_at (w_history w1) taskId = Some PromiseCreate
     ∧ ∀ w2 fired,
         types_kept w1 w2 →
         ∃ w3,
           w_history w2 !! Z.to_nat taskId = Some PromiseCreate
           ∧ step isolate fired (Z.to_nat taskId) PromiseCreate w2
             = (Ok Continue, w3)
           ∧ w_tasks w3 !! taskId = Some (CREATED []))
  ∧ (∀ executor w w' taskId,
       createPromise (λ t, exec (executor t) ;;; ret tt) w = (Ok taskId, w') →
       history_at (w_history w') taskId = Some PromiseCreate)
  ∧ (∀ recorded main fuel sched,
       task_ids_are_create_indices
         (final_world
            (run isolate fuel sched (exec main (new_World recorded)).2))).
Proof.
  split; [|split].
  - intros w w1 taskId Henq.
    destruct (enqueueEvent_Ok _ _ _ _ Henq) as (Hat & _).
    split; [done|]. intros w2 fired Hkept.
    unfold history_at in Hat. case_bool_decide as Hpos; [|done].
    destruct (Hkept _ _ Hat) as (e & He & Hty).
    assert (e = PromiseCreate) as -> by by destruct e.
    eexists. split; [done|]. split; [reflexivity|].
    simpl. proj_simpl. rewrite Z2Nat.id by done. apply lookup_insert_eq.
  - intros executor w w' taskId. unfold createPromise, bind.
    destruct (enqueueEvent PromiseCreate w) as [[i|e] w1] eqn:Henq; [|done].
    pose proof (exec_types_kept (executor i) w1) as Hkept.
    destruct (exec (executor i) w1) as [[r|e] w2]; [|done].
    simpl in *. intros [= <- <-].
    destruct (enqueueEvent_Ok _ _ _ _ Henq) as (Hat & _).
    unfold history_at in *. case_bool_decide; [|done].
    destruct (Hkept _ _ Hat) as (e & He & Hty).
    by destruct e.
  - intros recorded main fuel sched. unfold run.
    apply run_from_keeps_task_ids.
    intros taskId task. proj_simpl.
    pose proof (exec_same_tasks main (new_World recorded)) as Hsame.
    unfold same in Hsame. proj_simpl. rewrite Hsame. simpl.
    by rewrite lookup_empty.
Qed.

(** ** The transitions of the run loop, one by one *)

Section Steps.

Variable isolate : nat → list value → Script.

Lemma yield_nil (w : World) : yield [] w = (Ok tt, w).
Proof. done. Qed.

(** When no pending promise is left to settle, a suspension changes
    nothing, whatever the environment picks. *)
Lemma fire_settled (k : nat) (w : World) :
  Forall (λ p, pp_settled p = true) (pendingPromises w) → fire k w = w.
Proof.
  intros Hall. unfold fire.
  destruct (pendingPromises w !! k) as [p|] eqn:Hk; [|done].
  rewrite Forall_lookup in Hall. by rewrite (Hall _ _ Hk).
Qed.

Lemma yield_settled (fired : list nat) (w : World) :
  Forall (λ p, pp_settled p = true) (pendingPromises w) →
  yield fired w = (Ok tt, w).
Proof.
  intros Hall. unfold yield, modify. f_equal.
  induction fired as [|k fired IH]; simpl; [done|].
  by rewrite fire_settled.
Qed.

Lemma handle_PromiseCreate (fired : list nat) (eventIndex : nat) (w : World) :
  handle isolate fired eventIndex PromiseCreate w
  = (Ok Continue,
     set_tasks (<[Z.of_nat eventIndex := CREATED []]> (w_tasks w)) w).
Proof. done. Qed.

Lemma handle_register_created (fired : list nat) (eventIndex : nat)
    (taskId : Z) (callback : Callback) (callbacks : list Callback)
    (w : World) :
  w_tasks w !! taskId = Some (CREATED callbacks) →
  handle isolate fired eventIndex (PromiseRegister taskId callback) w
  = (Ok Continue,
     set_tasks (<[taskId := CREATED (callbacks ++ [callback])]> (w_tasks w)) w).
Proof. intros Htask. unfold handle, bind, getTaskState. by rewrite Htask. Qed.

Lemma handle_register_resolved (fired : list nat) (eventIndex : nat)
    (taskId : Z) (callback : Callback) (callbacks : list Callback)
    (b : bool) (v : value) (w : World) :
  w_tasks w !! taskId = Some (RESOLVED callbacks b v) →
  handle isolate fired eventIndex (PromiseRegister taskId callback) w
  = match enqueueEvent (PromiseComplete taskId b v [callback])
            (yield fired w).2 with
    | (Ok _, w') => (Ok Continue, w')
    | (Throw e, w') => (Throw e, w')
    end.
Proof.
  intros Htask. unfold handle, bind, getTaskState. rewrite Htask.
  unfold yield, modify. simpl. by destruct (enqueueEvent _ _) as [[] ?].
Qed.

Lemma handle_resolve_with_task (fired : list nat) (eventIndex : nat)
    (taskId target : Z) (task : TaskState) (w : World) :
  w_tasks w !! taskId = Some task →
  handle isolate fired eventIndex (PromiseResolve taskId true (VNum target)) w
  = match enqueueEvent (PromiseRegister target (CbForward taskId)) w with
    | (Ok _, w') => (Ok Continue, w')
    | (Throw e, w') => (Throw e, w')
    end.
Proof.
  intros Htask. unfold handle, bind, getTaskState. rewrite Htask.
  by destruct (enqueueEvent _ _) as [[] ?].
Qed.

Lemma handle_resolve_with_value (fired : list nat) (eventIndex : nat)
    (taskId : Z) (v : value) (task : TaskState) (w : World) :
  w_tasks w !! taskId = Some task →
  handle isolate fired eventIndex (PromiseResolve taskId false v) w
  = if bool_decide (0 < length (callbacks_of task)) then
      match enqueueEvent (PromiseComplete taskId false v (callbacks_of task))
              (settled_world fired taskId v w) with
      | (Ok _, w') => (Ok Continue, w')
      | (Throw e, w') => (Throw e, w')
      end
    else (Ok Continue, settled_world fired taskId v w).
Proof.
  intros Htask. unfold handle, bind, getTaskState. rewrite Htask.
  unfold settled_world, yield, modify, tasks_set. simpl.
  case_bool_decide; [|done]. by destruct (enqueueEvent _ _) as [[] ?].
Qed.

Lemma handle_timer_resolve (fired : list nat) (eventIndex : nat)
    (taskId : Z) (b : bool) (v : value) (w : World) :
  handle isolate fired eventIndex (TimerResolve taskId b v) w
  = handle isolate fired eventIndex (PromiseResolve taskId b v) w.
Proof. done. Qed.

Lemma handle_PromiseComplete (fired : list nat) (eventIndex : nat)
    (taskId : Z) (b : bool) (v : value) (callbacks : list Callback)
    (w : World) :
  handle isolate fired eventIndex (PromiseComplete taskId b v callbacks) w
  = match call_all isolate callbacks b v w with
    | (Ok _, w') =>
        (Ok (if bool_decide (taskId = 0%Z) then Return else Continue), w')
    | (Throw e, w') => (Throw e, w')
    end.
Proof.
  unfold handle, bind. destruct (call_all _ _ _ _ _) as [[] ?]; [|done].
  by case_bool_decide.
Qed.

(** A batch calls its callbacks front to back: all of them when it comes
    to its end, and a prefix of the list when a callback throws, the one
    that threw being the last one called. *)
Lemma call_all_invoked_prefix (callbacks : list Callback) (b : bool)
    (v : value) (w w' : World) (r : Result unit) :
  call_all isolate callbacks b v w = (r, w') →
  ∃ called, called `prefix_of` callbacks
            ∧ invoked w' = invoked w ++ batch called b v
            ∧ (∀ u, r = Ok u → called = callbacks).
Proof.
  revert w. induction callbacks as [|callback rest IH]; intros w; simpl.
  - intros [= <- <-]. exists []. by rewrite app_nil_r.
  - unfold bind, modify.
    pose proof (call_same_invoked isolate callback b v
                  (record_call {| inv_callback := callback;
                                  inv_valueIsTaskId := b;
                                  inv_value := v |} w)) as Hsame.
    unfold same in Hsame.
    destruct (call isolate callback b v _) as [[[]|e] w1]; simpl in Hsame.
    + intros (called & Hpre & Hinv & Hall)%IH. exists (callback :: called).
      split; [by apply prefix_cons|].
      split; [rewrite Hinv, Hsame; by rewrite <- app_assoc|].
      intros u Hr. by rewrite (Hall u Hr).
    + intros [= <- <-]. exists [callback].
      split; [by apply prefix_cons, prefix_nil|]. split; [done|]. done.
Qed.

End Steps.

(** ** Live mode *)

Section Live.

Variable isolate : nat → list value → Script.

Lemma appended_history (event : Event) (w : World) :
  w_history (appended event w) = w_history w ++ [event].
Proof. unfold appended. by proj_simpl. Qed.

Lemma appended_tasks (event : Event) (w : World) :
  w_tasks (appended event w) = w_tasks w.
Proof. unfold appended. by proj_simpl. Qed.

Lemma appended_isReplay (event : Event) (w : World) :
  w_isReplay (appended event w) = w_isReplay w.
Proof. unfold appended. by proj_simpl. Qed.

Lemma appended_pendingPromises (event : Event) (w : World) :
  pendingPromises (appended event w) = pendingPromises w.
Proof. unfold appended. by proj_simpl. Qed.

Lemma appended_invoked (event : Event) (w : World) :
  invoked (appended event w) = invoked w.
Proof. unfold appended. by proj_simpl. Qed.

Lemma enqueueEvent_appended (event : Event) (w : World) :
  w_isReplay w = false →
  enqueueEvent event w
  = (Ok (Z.of_nat (length (w_history w))), appended event w).
Proof. apply enqueueEvent_live. Qed.

Lemma yield_same_tasks (fired : list nat) (w : World) :
  w_tasks (yield fired w).2 = w_tasks w
  ∧ w_isReplay (yield fired w).2 = w_isReplay w
  ∧ invoked (yield fired w).2 = invoked w.
Proof.
  split; [|split].
  - apply (yield_frame (same w_tasks)) with (can_fire := λ _, True);
      [done|apply same_trans| |done|by apply Forall_true].
    intros. apply enqueueEvent_same.
  - apply (yield_frame (same w_isReplay)) with (can_fire := λ _, True);
      [done|apply same_trans| |done|by apply Forall_true].
    intros. apply enqueueEvent_same.
  - apply (yield_frame (same invoked)) with (can_fire := λ _, True);
      [done|apply same_trans| |done|by apply Forall_true].
    intros. apply enqueueEvent_same.
Qed.

(** In live mode the timers that elapse during a suspension append their
    [TimerResolve] events, and nothing else is added to the history. *)
Lemma yield_live (fired : list nat) (w : World) :
  w_isReplay w = false →
  ∃ timers,
    Forall (λ e, type e = "TimerResolve") timers
    ∧ w_history (yield fired w).2 = w_history w ++ timers.
Proof.
  unfold yield, modify. simpl. revert w.
  induction fired as [|k fired IH]; intros w Hlive; simpl.
  - exists []. by rewrite app_nil_r.
  - assert (∃ ts, Forall (λ e, type e = "TimerResolve") ts
                  ∧ w_history (fire k w) = w_history w ++ ts
                  ∧ w_isReplay (fire k w) = false) as (ts & Hts & Hh & Hl).
    { unfold fire. destruct (pendingPromises w !! k) as [p|];
        [|exists []; by rewrite app_nil_r].
      destruct (pp_settled p); [exists []; by rewrite app_nil_r|].
      rewrite (enqueueEvent_appended _ _ Hlive).
      exists [TimerResolve (pp_taskId p) false VUndefined].
      split; [by constructor|]. unfold appended. by proj_simpl. }
    destruct (IH _ Hl) as (ts' & Hts' & Hh').
    exists (ts ++ ts'). split; [by apply Forall_app|].
    by rewrite Hh', Hh, app_assoc.
Qed.

Lemma settled_world_live (fired : list nat) (taskId : Z) (v : value)
    (w : World) :
  w_isReplay w = false →
  w_tasks (settled_world fired taskId v w)
  = <[taskId := RESOLVED [] false v]> (w_tasks w)
  ∧ w_isReplay (settled_world fired taskId v w) = false
  ∧ invoked (settled_world fired taskId v w) = invoked w
  ∧ ∃ timers,
      Forall (λ e, type e = "TimerResolve") timers
      ∧ w_history (settled_world fired taskId v w) = w_history w ++ timers.
Proof.
  intros Hlive. unfold settled_world.
  destruct (yield_same_tasks fired
              (set_tasks (<[taskId := RESOLVED [] false v]> (w_tasks w)) w))
    as (Ht & Hr & Hi).
  rewrite Ht, Hr, Hi. split; [done|]. split; [done|]. split; [done|].
  by apply (yield_live fired
              (set_tasks (<[taskId := RESOLVED [] false v]> (w_tasks w)) w)).
Qed.

End Live.

(** ** Steps of a live run

    What one turn of the loop does in live mode, for each transition that
    the properties below go through.  [timers] are the [TimerResolve] events
    of the timers that elapsed while [run] was suspended; there is none when
    every pending promise is already settled. *)

Section LiveSteps.

Variable isolate : nat → list value → Script.

Lemma step_handle (fired : list nat) (i : nat) (e : Event) (w : World) :
  step isolate fired i e w
  = handle isolate fired i e (log (LogHandle (Z.of_nat i) e) w).
Proof. reflexivity. Qed.

Lemma step_register_created (fired : list nat) (i : nat) (t : Z)
    (c : Callback) (cbs : list Callback) (w : World) :
  w_tasks w !! t = Some (CREATED cbs) →
  ∃ w', step isolate fired i (PromiseRegister t c) w = (Ok Continue, w')
        ∧ w_history w' = w_history w
        ∧ w_tasks w' = <[t := CREATED (cbs ++ [c])]> (w_tasks w)
        ∧ w_isReplay w' = w_isReplay w
        ∧ invoked w' = invoked w
        ∧ pendingPromises w' = pendingPromises w.
Proof.
  intros Ht. rewrite step_handle.
  erewrite handle_register_created by exact Ht. by eexists.
Qed.


Lemma settled_world_quiet (fired : list nat) (t : Z) (v : value) (w : World) :
  all_settled w →
  settled_world fired t v w
  = set_tasks (<[t := RESOLVED [] false v]> (w_tasks w)) w.
Proof. intros Hq. unfold settled_world. by rewrite yield_settled. Qed.

Lemma step_resolve_with_value (fired : list nat) (i : nat) (t : Z)
    (v : value) (task : TaskState) (w : World) :
  w_isReplay w = false →
  w_tasks w !! t = Some task →
  ∃ w' timers,
    step isolate fired i (PromiseResolve t false v) w = (Ok Continue, w')
    ∧ Forall (λ e, type e = "TimerResolve") timers
    ∧ w_history w'
      = w_history w ++ timers
        ++ (if bool_decide (0 < length (callbacks_of task))
            then [PromiseComplete t false v (callbacks_of task)] else [])
    ∧ w_tasks w' = <[t := RESOLVED [] false v]> (w_tasks w)
    ∧ w_isReplay w' = false
    ∧ invoked w' = invoked w
    ∧ (all_settled w →
       timers = [] ∧ pendingPromises w' = pendingPromises w).
Proof.
  intros Hlive Ht. rewrite step_handle.
  erewrite handle_resolve_with_value by exact Ht.
  set (w0 := log (LogHandle (Z.of_nat i) (PromiseResolve t false v)) w).
  destruct (settled_world_live fired t v w0 Hlive)
    as (Htasks & Hlive' & Hinv & timers & Htimers & Hh).
  assert (all_settled w →
          timers = [] ∧ pendingPromises (settled_world fired t v w0)
                        = pendingPromises w) as Hquiet.
  { intros Hq. rewrite (settled_world_quiet fired t v w0 Hq) in Hh |- *.
    split; [|done]. proj_simpl.
    apply (app_inv_head (history (timeline w))). by rewrite app_nil_r. }
  exists (if bool_decide (0 < length (callbacks_of task))
          then appended (PromiseComplete t false v (callbacks_of task))
                 (settled_world fired t v w0)
          else settled_world fired t v w0), timers.
  case_bool_decide.
  - rewrite enqueueEvent_appended by done.
    rewrite appended_history, appended_tasks, appended_isReplay,
      appended_invoked, appended_pendingPromises, Hh, app_assoc.
    done.
  - by rewrite Hh, app_nil_r.
Qed.





End LiveSteps.

(** ** Callback ordering *)

(** Whatever its outcome, [enqueueEvent] shows its event on the console at
    most once: not at all when the replay cursor runs off the history. *)
Lemma enqueueEvent_enqueued (event : Event) (w : World) :
  ∃ shown, (shown = [] ∨ shown = [event])
           ∧ enqueued (console (enqueueEvent event w).2)
             = enqueued (console w) ++ shown.
Proof.
  destruct (enqueueEvent_cases event w)
    as [[_ ->]|[[_ [j ->]]|[_ (j & hE & Hland & [(Hty & _ & ->)|[e ->]])]]];
    simpl; proj_simpl.
  - exists [event]. split; [by right|done].
  - exists []. split; [by left|by rewrite app_nil_r].
  - exists [event]. split; [by right|done].
  - exists [event]. split; [by right|done].
Qed.

(** During a suspension only [TimerResolve] events are enqueued. *)
Lemma yield_enqueued (fired : list nat) (w : World) :
  ∃ timers,
    Forall (λ e, type e = "TimerResolve") timers
    ∧ enqueued (console (yield fired w).2) = enqueued (console w) ++ timers.
Proof.
  unfold yield, modify. simpl. revert w.
  induction fired as [|k fired IH]; intros w; simpl.
  - exists []. by rewrite app_nil_r.
  - assert (∃ ts, Forall (λ e, type e = "TimerResolve") ts
                  ∧ enqueued (console (fire k w))
                    = enqueued (console w) ++ ts) as (ts & Hts & Hc).
    { unfold fire. destruct (pendingPromises w !! k) as [p|];
        [|exists []; by rewrite app_nil_r].
      destruct (pp_settled p); [exists []; by rewrite app_nil_r|].
      destruct (enqueueEvent_enqueued
                  (TimerResolve (pp_taskId p) false VUndefined) w)
        as (shown & Hshown & Hc).
      destruct (enqueueEvent _ w) as [r w']. simpl in *.
      exists shown. split; [|done].
      destruct Hshown as [->| ->]; by repeat constructor. }
    destruct (IH (fire k w)) as (ts' & Hts' & Hc').
    exists (ts ++ ts'). split; [by apply Forall_app|].
    by rewrite Hc', Hc, app_assoc.
Qed.

(** Resolving a task with a value, in live or in replay mode. *)
Lemma step_resolve_with_value_any_mode (isolate : nat → list value → Script)
    (fired : list nat) (i : nat) (t : Z) (v : value) (task : TaskState)
    (w w' : World) (r : Result Control) :
  w_tasks w !! t = Some task →
  step isolate fired i (PromiseResolve t false v) w = (r, w') →
  w_tasks w' !! t = Some (RESOLVED [] false v)
  ∧ invoked w' = invoked w
  ∧ (w_isReplay w = false → r = Ok Continue)
  ∧ (r = Ok Continue →
     ∃ timers,
       Forall (λ e, type e = "TimerResolve") timers
       ∧ enqueued (console w')
         = enqueued (console w) ++ timers
           ++ (if bool_decide (0 < length (callbacks_of task))
               then [PromiseComplete t false v (callbacks_of task)]
               else [])).
Proof.
  intros Ht. rewrite step_handle.
  erewrite handle_resolve_with_value by exact Ht.
  set (w0 := log (LogHandle (Z.of_nat i) (PromiseResolve t false v)) w).
  unfold settled_world.
  set (w1 := set_tasks (<[t := RESOLVED [] false v]> (w_tasks w0)) w0).
  destruct (yield_same_tasks fired w1) as (Htasks & Hmode & Hinv).
  destruct (yield_enqueued fired w1) as (timers & Htimers & Hc).
  assert (w_tasks (yield fired w1).2 !! t = Some (RESOLVED [] false v)) as Hres.
  { rewrite Htasks. unfold w1. proj_simpl. apply lookup_insert_eq. }
  assert (enqueued (console w1) = enqueued (console w)) as Hc1.
  { unfold w1, w0. proj_simpl. simpl. by rewrite app_nil_r. }
  rewrite Hc1 in Hc.
  case_bool_decide.
  - destruct (enqueueEvent_same
                (PromiseComplete t false v (callbacks_of task))
                (yield fired w1).2) as (Hst & Hsr & _ & Hsi).
    destruct (enqueueEvent (PromiseComplete t false v (callbacks_of task))
                (yield fired w1).2) as [[j|e] w2] eqn:Henq;
      intros [= <- <-]; unfold same in *; simpl in *.
    + split; [by rewrite Hst|]. split; [by rewrite Hsi, Hinv|].
      split; [done|]. intros _. exists timers. split; [done|].
      destruct (enqueueEvent_Ok _ _ _ _ Henq) as (_ & Hc2 & _).
      by rewrite Hc2, Hc, app_assoc.
    + split; [by rewrite Hst|]. split; [by rewrite Hsi, Hinv|].
      split; [|done]. intros Hlive.
      rewrite enqueueEvent_appended in Henq; [done|].
      by rewrite Hmode.
  - intros [= <- <-]. split; [done|]. split; [done|]. split; [done|].
    intros _. exists timers. split; [done|]. by rewrite app_nil_r.
Qed.

(** What a callback does when it is called, in live mode: the closure of
    [then] runs its function on the value and resolves the next task with
    what the function returned; the forwarding closure resolves its task
    with the arguments it was given; the closure of a timer runs its
    function on the arguments of [setTimeout]. *)
Lemma call_live (isolate : nat → list value → Script) (b : bool)
    (v : value) (w : World) :
  w_isReplay w = false →
  (∀ nextTaskId fn,
     call isolate (CbThen nextTaskId fn) b v w
     = match exec (isolate fn [v]) w with
       | (Ok res, w1) =>
           (Ok tt, appended (PromiseResolve nextTaskId res.1 res.2) w1)
       | (Throw e, w1) => (Throw e, w1)
       end)
  ∧ (∀ taskId,
       call isolate (CbForward taskId) b v w
       = (Ok tt, appended (PromiseResolve taskId b v) w))
  ∧ (∀ fn args,
       call isolate (CbTimer fn args) b v w
       = match exec (isolate fn args) w with
         | (Ok _, w1) => (Ok tt, w1)
         | (Throw e, w1) => (Throw e, w1)
         end).
Proof.
  intros Hlive. split; [|split].
  - intros nextTaskId fn. unfold call, bind.
    assert (same w_isReplay w (exec (isolate fn [v]) w).2) as Hmode.
    { apply exec_frame; [done|apply same_trans|].
      intros. apply enqueueEvent_same. }
    unfold same in Hmode.
    destruct (exec (isolate fn [v]) w) as [[res|e] w1]; simpl in *; [|done].
    rewrite enqueueEvent_appended by congruence. done.
  - intros taskId. unfold call, bind.
    by rewrite enqueueEvent_appended.
  - intros fn args. unfold call, bind.
    by destruct (exec (isolate fn args) w) as [[res|e] w1].
Qed.

(** C6, as the code has it.  Task [t] is pending with no callback in [w1].
    [c1], [c2] and [c3] are registered on it, in the worlds [w1], [w2] and
    [w3], nothing having touched the entry of [t] in between; then [t] is
    resolved with the plain value [v] in [w4].
    - The registrations call nothing.
    - The resolution marks [t] [RESOLVED] with [v], calls nothing either,
      and, besides the [TimerResolve] events of timers that elapsed during
      its suspension, enqueues one single event: a [PromiseComplete]
      carrying [c1; c2; c3] (always in live mode, where it is appended to
      the history behind those [TimerResolve] events, and in replay mode
      when the history agrees).
    - Whenever that event is handled, [c1], [c2] and [c3] are called in
      this order with [(false, v)], each in the world that the one before
      left, and nothing else is called in between; a callback that throws
      ends the batch, the callbacks after it are not called and [run] fails
      with its exception.
    - A call does what the closure does: in live mode, the closure of
      [then] runs its function on [[v]] and appends the [PromiseResolve] of
      its next task with what the function returned, the forwarding closure
      appends [PromiseResolve (a, false, v)]. *)
Theorem callbacks_fire_in_registration_order
    (isolate : nat → list value → Script) (t : Z) (c1 c2 c3 : Callback)
    (v : value) (f1 f2 f3 f4 : list nat) (i1 i2 i3 i4 : nat)
    (w1 w2 w3 w4 : World) :
  w_tasks w1 !! t = Some (CREATED []) →
  w_tasks w2 !! t
  = w_tasks (step isolate f1 i1 (PromiseRegister t c1) w1).2 !! t →
  w_tasks w3 !! t
  = w_tasks (step isolate f2 i2 (PromiseRegister t c2) w2).2 !! t →
  w_tasks w4 !! t
  = w_tasks (step isolate f3 i3 (PromiseRegister t c3) w3).2 !! t →
  invoked (step isolate f1 i1 (PromiseRegister t c1) w1).2 = invoked w1
  ∧ invoked (step isolate f2 i2 (PromiseRegister t c2) w2).2 = invoked w2
  ∧ invoked (step isolate f3 i3 (PromiseRegister t c3) w3).2 = invoked w3
  ∧ w_tasks w4 !! t = Some (CREATED [c1; c2; c3])
  ∧ (∀ r w5,
       step isolate f4 i4 (PromiseResolve t false v) w4 = (r, w5) →
       w_tasks w5 !! t = Some (RESOLVED [] false v)
       ∧ invoked w5 = invoked w4
       ∧ (w_isReplay w4 = false → r = Ok Continue)
       ∧ (r = Ok Continue →
          ∃ timers,
            Forall (λ e, type e = "TimerResolve") timers
            ∧ enqueued (console w5)
              = enqueued (console w4) ++ timers
                ++ [PromiseComplete t false v [c1; c2; c3]])
       ∧ (w_isReplay w4 = false →
          ∃ timers,
            Forall (λ e, type e = "TimerResolve") timers
            ∧ w_history w5
              = w_history w4 ++ timers
                ++ [PromiseComplete t false v [c1; c2; c3]]))
  ∧ (∀ fired eventIndex w6 r w7,
       step isolate fired eventIndex
         (PromiseComplete t false v [c1; c2; c3]) w6 = (r, w7) →
       (∃ called,
          called `prefix_of` [c1; c2; c3]
          ∧ invoked w7 = invoked w6 ++ batch called false v
          ∧ (∀ c, r = Ok c →
               invoked w7
               = invoked w6
                 ++ [ {| inv_callback := c1; inv_valueIsTaskId := false;
                         inv_value := v |};
                      {| inv_callback := c2; inv_valueIsTaskId := false;
                         inv_value := v |};
                      {| inv_callback := c3; inv_valueIsTaskId := false;
                         inv_value := v |} ]))
       ∧ ∃ ra wa,
           call isolate c1 false v
             (record_call {| inv_callback := c1; inv_valueIsTaskId := false;
                             inv_value := v |}
                (log (LogHandle (Z.of_nat eventIndex)
                        (PromiseComplete t false v [c1; c2; c3])) w6))
           = (ra, wa)
           ∧ match ra with
             | Throw e => r = Throw e ∧ w7 = wa
             | Ok _ =>
                 ∃ rb wb,
                   call isolate c2 false v
                     (record_call {| inv_callback := c2;
                                     inv_valueIsTaskId := false;
                                     inv_value := v |} wa)
                   = (rb, wb)
                   ∧ match rb with
                     | Throw e => r = Throw e ∧ w7 = wb
                     | Ok _ =>
                         ∃ rc wc,
                           call isolate c3 false v
                             (record_call {| inv_callback := c3;
                                             inv_valueIsTaskId := false;
                                             inv_value := v |} wb)
                           = (rc, wc)
                           ∧ w7 = wc
                           ∧ r = match rc with
                                 | Throw e => Throw e
                                 | Ok _ =>
                                     Ok (if bool_decide (t = 0%Z)
                                         then Return else Continue)
                                 end
                     end
             end)
  ∧ (∀ w, w_isReplay w = false →
       (∀ nextTaskId fn,
          call isolate (CbThen nextTaskId fn) false v w
          = match exec (isolate fn [v]) w with
            | (Ok res, w') =>
                (Ok tt, appended (PromiseResolve nextTaskId res.1 res.2) w')
            | (Throw e, w') => (Throw e, w')
            end)
       ∧ (∀ taskId,
            call isolate (CbForward taskId) false v w
            = (Ok tt, appended (PromiseResolve taskId false v) w))).
Proof.
  intros Ht1 Ht2 Ht3 Ht4.
  destruct (step_register_created isolate f1 i1 t c1 [] w1 Ht1)
    as (w1' & Hs1 & _ & Ht1' & _ & Hi1 & _).
  rewrite Hs1 in Ht2 |- *. simpl in Ht2.
  rewrite Ht1', lookup_insert_eq in Ht2.
  destruct (step_register_created isolate f2 i2 t c2 _ w2 Ht2)
    as (w2' & Hs2 & _ & Ht2' & _ & Hi2 & _).
  rewrite Hs2 in Ht3 |- *. simpl in Ht3.
  rewrite Ht2', lookup_insert_eq in Ht3.
  destruct (step_register_created isolate f3 i3 t c3 _ w3 Ht3)
    as (w3' & Hs3 & _ & Ht3' & _ & Hi3 & _).
  rewrite Hs3 in Ht4 |- *. simpl in Ht4.
  rewrite Ht3', lookup_insert_eq in Ht4.
  split; [done|]. split; [done|]. split; [done|]. split; [done|].
  split; [|split].
  - intros r w5 Hstep.
    destruct (step_resolve_with_value_any_mode _ _ _ _ _ _ _ _ _ Ht4 Hstep)
      as (Hres & Hinv & Hok & Hshown).
    split; [done|]. split; [done|]. split; [done|]. split; [done|].
    intros Hlive.
    destruct (step_resolve_with_value isolate f4 i4 t v _ w4 Hlive Ht4)
      as (w5' & timers & Hs & Htimers & Hh & _).
    rewrite Hs in Hstep. injection Hstep as _ <-.
    exists timers. split; [done|]. by rewrite Hh.
  - intros fired eventIndex w6 r w7 Hstep. split.
    + revert Hstep. rewrite step_handle, handle_PromiseComplete.
      destruct (call_all isolate [c1; c2; c3] false v _) as [r0 w0]
        eqn:Hcalls.
      destruct (call_all_invoked_prefix _ _ _ _ _ _ _ Hcalls)
        as (called & Hpre & Hinv & Hall).
      destruct r0 as [[]|e]; intros [= <- <-]; exists called;
        (split; [done|]); (split; [done|]); [|done].
      intros _ _. by rewrite Hinv, (Hall tt eq_refl).
    + rewrite step_handle in Hstep.
      unfold handle, call_all, bind, modify in Hstep. cbv beta iota in Hstep.
      destruct (call isolate c1 false v _) as [[[]|ea] wa] eqn:Ha;
        [|simplify_eq; by eexists _, _].
      exists (Ok tt), wa. split; [done|].
      destruct (call isolate c2 false v _) as [[[]|eb] wb] eqn:Hb;
        [|simplify_eq; by eexists _, _].
      exists (Ok tt), wb. split; [done|].
      destruct (call isolate c3 false v _) as [[[]|ec] wc] eqn:Hc;
        eexists _, _; (split; [done|]).
      * unfold ret in Hstep. case_bool_decide; by simplify_eq.
      * by simplify_eq.
  - intros w Hlive.
    destruct (call_live isolate false v w Hlive) as (Hthen & Hforward & _).
    by split.
Qed.

(** C6, as the claim states it, fails in two ways.  On [three_thens], when
    the function of the second [then] throws, the batch stops there: the
    third callback is never called and [run] fails.  On
    [root_completes_first], the three callbacks are registered on task 4,
    task 4 is resolved with 42 and the [PromiseComplete] that carries them
    is in the history at index 13; [run] returns at index 12, the
    completion of the root, and none of the three is ever called. *)
Lemma batch_not_called_counterexample :
  (∃ w', run (throws_on 2) 20 no_timer (exec three_thens (new_World [])).2
         = Failed (IsolateError "boom") w'
         ∧ w_history w' !! 9
           = Some (PromiseComplete 1 false (VNum 42)
                     [CbThen 2 1; CbThen 4 2; CbThen 6 3])
         ∧ invoked w'
           = [ {| inv_callback := CbThen 2 1; inv_valueIsTaskId := false;
                  inv_value := VNum 42 |};
               {| inv_callback := CbThen 4 2; inv_valueIsTaskId := false;
                  inv_value := VNum 42 |} ])
  ∧ (∃ w', run idle_isolate 20 no_timer
             (exec root_completes_first (new_World [])).2
           = Returned w'
           ∧ w_tasks w' !! 4%Z = Some (RESOLVED [] false (VNum 42))
           ∧ w_history w' !! 13
             = Some (PromiseComplete 4 false (VNum 42)
                       [CbThen 5 1; CbThen 7 2; CbThen 9 3])
           ∧ handled (console w')
             = [0; 1; 2; 3; 4; 5; 6; 7; 8; 9; 10; 11; 12]%Z
           ∧ invoked w'
             = [ {| inv_callback := CbThen 2 0; inv_valueIsTaskId := false;
                    inv_value := VNum 1 |} ]).
Proof.
  split; eexists; (split; [by vm_compute|]).
  - split; by vm_compute.
  - split; [by vm_compute|]. split; [by vm_compute|]. split; by vm_compute.
Qed.

(** ** Chaining *)





(** ** Cancellation *)

(** C7, as the claim states it, fails: no event of the union that the
    scheduler accepts has the type of [TimerCancelEvent]. *)
Lemma no_TimerCancel_event_counterexample :
  ¬ ∃ e : Event, type e = TimerCancelEvent_type.
Proof. intros [[] He]; discriminate He. Qed.

Lemma settle_other (k k' : nat) (ps : list PendingPromise) :
  k' ≠ k → settle k' ps !! k = ps !! k.
Proof.
  intros Hne. unfold settle. destruct (ps !! k'); [|done].
  by rewrite list_lookup_insert_ne.
Qed.

(** C7, as the code has it.  The scheduler has no cancellation.  Every
    event of the union has one of six types, none of them [TimerCancel];
    handling any event leaves each pending wait in place and unsettled,
    unless its timer elapses during that very step; and a wait that elapses
    in live mode appends its [TimerResolve]. *)
Theorem waits_are_never_cancelled (isolate : nat → list value → Script)
    (fired : list nat) (eventIndex : nat) (event : Event) (w : World)
    (k : nat) (p : PendingPromise) :
  pendingPromises w !! k = Some p →
  pp_settled p = false →
  k ∉ fired →
  type event ∈ ["PromiseComplete"; "PromiseCreate"; "PromiseRegister";
                "PromiseResolve"; "TimerStart"; "TimerResolve"]
  ∧ pendingPromises (handle isolate fired eventIndex event w).2 !! k = Some p
  ∧ ∀ w', w_isReplay w' = false →
          pendingPromises w' !! k = Some p →
          w_history (fire k w')
          = w_history w' ++ [TimerResolve (pp_taskId p) false VUndefined].
Proof.
  intros Hk Hp Hfired. split; [|split].
  - destruct event; set_solver.
  - revert Hk.
    apply (handle_frame (still_waiting k p)) with (can_fire := λ k', k' ≠ k);
      unfold still_waiting.
    + by intros w0.
    + intros w1 w2 w3 H12 H23 H1. by apply H23, H12.
    + intros ev w0 H0.
      destruct (enqueueEvent_same ev w0) as (_ & _ & Hsame & _).
      by rewrite Hsame.
    + by intros i w0.
    + intros k' w0 Hne H0. simpl. by rewrite settle_other.
    + intros p0 w0 H0. simpl. by apply lookup_app_l_Some.
    + by intros taskId task w0 _.
    + rewrite Forall_forall. intros k' Hin ->. done.
    + by intros _ w0.
  - intros w' Hlive Hk'. by destruct (fire_live k p w' Hlive Hk' Hp).
Qed.

(** ** Settled tasks *)

Lemma enqueue_same_tasks {A} (event : Event) (k : Z → M A) (w : World) :
  (∀ i w', w_tasks (k i w').2 = w_tasks w') →
  w_tasks (bind (enqueueEvent event) k w).2 = w_tasks w.
Proof.
  intros Hk. unfold bind.
  destruct (enqueueEvent_same event w) as (Hsame & _).
  destruct (enqueueEvent event w) as [[i|e] w']; simpl in *; [|done].
  by rewrite Hk.
Qed.

Lemma settled_world_tasks (fired : list nat) (t : Z) (v : value) (w : World) :
  w_tasks (settled_world fired t v w)
  = <[t := RESOLVED [] false v]> (w_tasks w).
Proof.
  unfold settled_world.
  by destruct (yield_same_tasks fired
                 (set_tasks (<[t := RESOLVED [] false v]> (w_tasks w)) w))
    as (-> & _).
Qed.

Lemma handle_tasks (isolate : nat → list value → Script) (fired : list nat)
    (eventIndex : nat) (event : Event) (w : World) :
  w_tasks (handle isolate fired eventIndex event w).2
  = tasks_after eventIndex event (w_tasks w).
Proof.
  assert (∀ (taskId : Z) (b : bool) (v : value),
            w_tasks (handle isolate fired eventIndex
                       (PromiseResolve taskId b v) w).2
            = tasks_after eventIndex (PromiseResolve taskId b v) (w_tasks w))
    as Hresolve.
  { intros taskId b v. cbn [tasks_after].
    destruct (w_tasks w !! taskId) as [task|] eqn:Htask.
    - destruct b.
      + destruct v as [|target|str];
          try (unfold handle, bind, getTaskState; by rewrite Htask).
        erewrite handle_resolve_with_task by exact Htask.
        destruct (enqueueEvent_same (PromiseRegister target (CbForward taskId))
                    w) as (Hsame & _).
        by destruct (enqueueEvent _ w) as [[] ?].
      + erewrite handle_resolve_with_value by exact Htask.
        pose proof (settled_world_tasks fired taskId v w) as Hsettled.
        case_bool_decide; [|done].
        destruct (enqueueEvent_same
                    (PromiseComplete taskId false v (callbacks_of task))
                    (settled_world fired taskId v w)) as (Hsame & _).
        destruct (enqueueEvent _ (settled_world fired taskId v w))
          as [[] ?]; simpl in *; unfold same in *; congruence.
    - unfold handle, bind, getTaskState. rewrite Htask. by destruct b. }
  destruct event as [taskId b v callbacks| |taskId callback|taskId b v
                     |ms callback|taskId b v].
  - unfold handle, bind.
    pose proof (call_all_same_tasks isolate callbacks b v w) as Hsame.
    destruct (call_all isolate callbacks b v w) as [[[]|e] w']; [|done].
    by case_bool_decide.
  - done.
  - cbn [tasks_after].
    destruct (w_tasks w !! taskId) as [[cbs|cbs b v|cbs err]|] eqn:Ht.
    + by erewrite handle_register_created.
    + erewrite handle_register_resolved by exact Ht.
      destruct (yield_same_tasks fired w) as (Hy & _).
      destruct (enqueueEvent_same (PromiseComplete taskId b v [callback])
                  (yield fired w).2) as (Hsame & _).
      destruct (enqueueEvent _ (yield fired w).2) as [[] ?]; simpl in *;
        unfold same in *; congruence.
    + unfold handle, bind, getTaskState. by rewrite Ht.
    + unfold handle, bind, getTaskState. by rewrite Ht.
  - apply Hresolve.
  - unfold handle. cbn [tasks_after].
    apply enqueue_same_tasks. intros taskId w1.
    apply enqueue_same_tasks. intros _ w2.
    unfold bind. by destruct (w_isReplay w2).
  - apply Hresolve.
Qed.

(** C2, as the code has it.  While task [t] is [RESOLVED], handling an
    event leaves its entry as it is, with two exceptions and no other:
    - a [PromiseResolve] or a [TimerResolve] that carries a plain value for
      [t] itself, which stores the new value;
    - a [PromiseCreate] handled at index [t] itself, which makes [t]
      [CREATED] again with no callback.
    In particular a registration does not touch the entry; and a callback
    registered after the resolution is called by nothing at that time and
    is given, in a [PromiseComplete] of its own, the value that the entry
    holds at that time. *)
Theorem settled_value_is_kept (isolate : nat → list value → Script)
    (fired : list nat) (eventIndex : nat) (event : Event) (w : World)
    (t : Z) (callbacks : list Callback) (b : bool) (v : value) :
  w_tasks w !! t = Some (RESOLVED callbacks b v) →
  ((∀ v', event ≠ PromiseResolve t false v' ∧ event ≠ TimerResolve t false v') →
   (event = PromiseCreate → Z.of_nat eventIndex ≠ t) →
   w_tasks (handle isolate fired eventIndex event w).2 !! t
   = Some (RESOLVED callbacks b v))
  ∧ (∀ v',
       event = PromiseResolve t false v' ∨ event = TimerResolve t false v' →
       w_tasks (handle isolate fired eventIndex event w).2 !! t
       = Some (RESOLVED [] false v'))
  ∧ (event = PromiseCreate → Z.of_nat eventIndex = t →
     w_tasks (handle isolate fired eventIndex event w).2 !! t
     = Some (CREATED []))
  ∧ ∀ callback r w',
      event = PromiseRegister t callback →
      handle isolate fired eventIndex event w = (r, w') →
      w_tasks w' = w_tasks w
      ∧ invoked w' = invoked w
      ∧ (w_isReplay w = false → r = Ok Continue)
      ∧ (r = Ok Continue →
         ∃ timers,
           Forall (λ e, type e = "TimerResolve") timers
           ∧ enqueued (console w')
             = enqueued (console w) ++ timers
               ++ [PromiseComplete t b v [callback]]).
Proof.
  intros Ht. split; [|split; [|split]].
  - intros Hother Hcreate. rewrite handle_tasks.
    destruct event as [taskId b' v' cbs'| |taskId cb|taskId b' v'
                       |ms cb|taskId b' v']; simpl; try done.
    + rewrite lookup_insert_ne; [done|by apply Hcreate].
    + destruct (w_tasks w !! taskId) as [[cbs'|cbs' b' v'|cbs' err]|] eqn:Hk;
        try done.
      rewrite lookup_insert_ne; [done|]. intros ->. congruence.
    + destruct b'; [done|].
      destruct (w_tasks w !! taskId) eqn:Hk; [|done].
      rewrite lookup_insert_ne; [done|]. intros ->.
      by destruct (Hother v') as [Hne _].
    + destruct b'; [done|].
      destruct (w_tasks w !! taskId) eqn:Hk; [|done].
      rewrite lookup_insert_ne; [done|]. intros ->.
      by destruct (Hother v') as [_ Hne].
  - intros v' [-> | ->]; rewrite handle_tasks; cbn [tasks_after];
      rewrite Ht; apply lookup_insert_eq.
  - intros -> <-. rewrite handle_tasks. cbn [tasks_after].
    apply lookup_insert_eq.
  - intros callback r w' -> Hhandle.
    pose proof (handle_tasks isolate fired eventIndex
                  (PromiseRegister t callback) w) as Htasks.
    rewrite Hhandle in Htasks. simpl in Htasks. rewrite Ht in Htasks.
    split; [done|].
    erewrite handle_register_resolved in Hhandle by exact Ht.
    destruct (yield_same_tasks fired w) as (_ & Hmode & Hinv).
    destruct (yield_enqueued fired w) as (timers & Htimers & Hc).
    destruct (enqueueEvent_same (PromiseComplete t b v [callback])
                (yield fired w).2) as (_ & _ & _ & Hsi).
    destruct (enqueueEvent (PromiseComplete t b v [callback])
                (yield fired w).2) as [[j|e] w2] eqn:Henq;
      simplify_eq; unfold same in *; simpl in *.
    + split; [congruence|]. split; [done|]. intros _.
      exists timers. split; [done|].
      destruct (enqueueEvent_Ok _ _ _ _ Henq) as (_ & Hc2 & _).
      by rewrite Hc2, Hc, app_assoc.
    + split; [congruence|]. split; [|done]. intros Hlive.
      rewrite enqueueEvent_appended in Henq; [done|]. by rewrite Hmode.
Qed.

(** C2, as the claim states it, fails on the workflow [resolves_twice], run
    live from an empty history: task 0 is [RESOLVED] with 1 after two
    events and [RESOLVED] with 2 after three, and the callback registered
    afterwards is called with 2. *)
Lemma second_resolve_counterexample :
  w_history (exec resolves_twice (new_World [])).2
  = [PromiseCreate; PromiseResolve 0 false (VNum 1);
     PromiseResolve 0 false (VNum 2); PromiseCreate;
     PromiseRegister 0 (CbThen 3 0)]
  ∧ w_tasks (final_world (run idle_isolate 2 no_timer
                            (exec resolves_twice (new_World [])).2)) !! 0%Z
    = Some (RESOLVED [] false (VNum 1))
  ∧ w_tasks (final_world (run idle_isolate 3 no_timer
                            (exec resolves_twice (new_World [])).2)) !! 0%Z
    = Some (RESOLVED [] false (VNum 2))
  ∧ ∃ w', run idle_isolate 7 no_timer (exec resolves_twice (new_World [])).2
          = Returned w'
          ∧ invoked w' = [ {| inv_callback := CbThen 3 0;
                              inv_valueIsTaskId := false;
                              inv_value := VNum 2 |} ].
Proof.
  split; [by vm_compute|]. split; [by vm_compute|]. split; [by vm_compute|].
  eexists. split; by vm_compute.
Qed.

(** * Worked runs *)

(** ** Settled tasks *)

Lemma settled_value_is_kept_witness :
  w_tasks (handle idle_isolate [] 4 (PromiseRegister 0 (CbThen 3 0))
             before_late_register).2 !! 0%Z
  = Some (RESOLVED [] false (VNum 2)).
Proof.
  apply (proj1 (settled_value_is_kept idle_isolate [] 4
                  (PromiseRegister 0 (CbThen 3 0)) before_late_register 0 []
                  false (VNum 2) ltac:(by vm_compute)));
    [by intros v'|by intros H].
Defined.

(** ** Root completion, on [resolves_twice] *)

Lemma root_completion_returns_witness :
  ∃ w', run_from idle_isolate 1 no_timer 5 before_root_completion
        = Returned w'
        ∧ w_tasks w' !! 3%Z = Some (CREATED []).
Proof.
  destruct (root_completion_returns idle_isolate 0 no_timer 5 false (VNum 2)
              [CbThen 3 0] before_root_completion)
    as (r & w' & Hcalls & Hrun & Htasks & _); [by vm_compute|].
  assert (r = Ok tt) as ->.
  { apply (f_equal fst) in Hcalls. vm_compute in Hcalls. by symmetry. }
  exists w'. split; [exact Hrun|]. rewrite Htasks. by vm_compute.
Defined.

(** ** Chaining *)


(** ** Callback ordering *)

Lemma callbacks_fire_in_registration_order_witness :
  w_tasks (ordering_world 8) !! 1%Z
  = Some (CREATED [CbThen 2 1; CbThen 4 2; CbThen 6 3])
  ∧ invoked (ordering_world 10)
    = [ {| inv_callback := CbThen 2 1; inv_valueIsTaskId := false;
           inv_value := VNum 42 |};
        {| inv_callback := CbThen 4 2; inv_valueIsTaskId := false;
           inv_value := VNum 42 |};
        {| inv_callback := CbThen 6 3; inv_valueIsTaskId := false;
           inv_value := VNum 42 |} ]
  ∧ w_history (ordering_world 9)
    = w_history (ordering_world 8)
      ++ [PromiseComplete 1 false (VNum 42)
            [CbThen 2 1; CbThen 4 2; CbThen 6 3]]
  ∧ w_history (ordering_world 10)
    = w_history (ordering_world 9)
      ++ [PromiseResolve 2 false VUndefined;
          PromiseResolve 4 false VUndefined;
          PromiseResolve 6 false VUndefined].
Proof.
  destruct (callbacks_fire_in_registration_order idle_isolate 1
              (CbThen 2 1) (CbThen 4 2) (CbThen 6 3) (VNum 42)
              [] [] [] [] 3 5 7 8
              (ordering_world 3) (ordering_world 5) (ordering_world 7)
              (ordering_world 8))
    as (_ & _ & _ & Htask & Hresolve & Hcalls & _);
    [by vm_compute|by vm_compute|by vm_compute|by vm_compute|].
  split; [exact Htask|].
  destruct (Hcalls [] 9 (ordering_world 9) (Ok Continue) (ordering_world 10))
    as [(called & _ & _ & Hinv) (ra & wa & Ha & Hchain)]; [by vm_compute|].
  split; [rewrite (Hinv Continue eq_refl); by vm_compute|].
  destruct (Hresolve (Ok Continue) (ordering_world 9))
    as (_ & _ & _ & _ & Hh); [by vm_compute|].
  destruct (Hh eq_refl) as (timers & Htimers & Hhistory).
  split.
  - rewrite Hhistory. f_equal.
    apply (f_equal length) in Hhistory. vm_compute in Hhistory.
    destruct timers as [|? [|? ?]]; simpl in Hhistory; [done|lia..].
  - by vm_compute.
Defined.

(** ** Timers *)

Lemma timerStart_synthesis_witness :
  (∃ w', handle idle_isolate [] 0 (TimerStart 10 (CbTimer 0 []))
           (timer_world 0) = (Ok Continue, w')
         ∧ pendingPromises w'
           = [{| pp_taskId := 1; pp_ms := 10; pp_settled := false |}])
  ∧ (∃ w', handle idle_isolate [] 0 (TimerStart 10 (CbTimer 0 []))
             timer_replay = (Ok Continue, w')
           ∧ pendingPromises w' = []).
Proof.
  split.
  - destruct (proj1 (timerStart_synthesis idle_isolate [] 0 10 (CbTimer 0 [])
                       (timer_world 0)))
      as (w' & taskId & Hrun & -> & _ & _ & Hpending & _); [by vm_compute|].
    exists w'. split; [exact Hrun|]. rewrite Hpending. by vm_compute.
  - exists (handle idle_isolate [] 0 (TimerStart 10 (CbTimer 0 []))
              timer_replay).2.
    assert (handle idle_isolate [] 0 (TimerStart 10 (CbTimer 0 []))
              timer_replay
            = (Ok Continue,
               (handle idle_isolate [] 0 (TimerStart 10 (CbTimer 0 []))
                  timer_replay).2)) as Hrun by by vm_compute.
    split; [exact Hrun|].
    destruct (proj2 (timerStart_synthesis idle_isolate [] 0 10 (CbTimer 0 [])
                       timer_replay) eq_refl _ _ Hrun) as [Hpending _].
    rewrite Hpending. by vm_compute.
Defined.

Lemma waits_are_never_cancelled_witness :
  pendingPromises (handle idle_isolate [] 1 PromiseCreate (timer_world 1)).2
    !! 0
  = Some {| pp_taskId := 1; pp_ms := 10; pp_settled := false |}.
Proof.
  apply (waits_are_never_cancelled idle_isolate [] 1 PromiseCreate
           (timer_world 1) 0
           {| pp_taskId := 1; pp_ms := 10; pp_settled := false |});
    [by vm_compute|done|].
  apply not_elem_of_nil.
Defined.

(** ** Task ids *)

Lemma task_id_is_create_index_witness :
  history_at
    (w_history (enqueueEvent PromiseCreate (new_World [])).2) 0
  = Some PromiseCreate.
Proof.
  apply (proj1 (task_id_is_create_index idle_isolate) (new_World [])
           (enqueueEvent PromiseCreate (new_World [])).2 0%Z).
  reflexivity.
Defined.

(** * Further properties of [engine.ts] *)

(** ** Lifting a relation to a whole run *)

Section RunFrame.

Variable isolate : nat → list value → Script.
Variable R : World → World → Prop.
Hypothesis R_refl : ∀ w, R w w.
Hypothesis R_trans : ∀ w1 w2 w3, R w1 w2 → R w2 w3 → R w1 w3.
Hypothesis R_log : ∀ l w, R w (log l w).
Hypothesis R_handle : ∀ fired i event w,
  R w (handle isolate fired i event w).2.

Lemma run_from_frame (fuel : nat) (sched : nat → list nat) (i : nat)
    (w : World) :
  R w (final_world (run_from isolate fuel sched i w)).
Proof.
  revert i w. induction fuel as [|fuel IH]; intros i w; simpl;
    [apply R_refl|].
  destruct (w_history w !! i) as [event|]; [|case_bool_decide; apply R_refl].
  pose proof (R_handle (sched i) i event
                (log (LogHandle (Z.of_nat i) event) w)) as Hh.
  unfold step, bind, modify.
  destruct (handle isolate (sched i) i event _) as [[[]|e] w'];
    simpl in *; (eapply R_trans; [apply R_log|]);
    (eapply R_trans; [exact Hh|]); [apply IH|apply R_refl..].
Qed.

End RunFrame.

(** ** The history in live mode and in replay mode *)

Lemma grows_live_same (w w' : World) :
  w_isReplay w' = w_isReplay w → w_history w' = w_history w →
  grows_live w w'.
Proof. intros Hr Hh Hlive. by rewrite Hr, Hh. Qed.

Lemma grows_live_trans (w1 w2 w3 : World) :
  grows_live w1 w2 → grows_live w2 w3 → grows_live w1 w3.
Proof.
  intros H12 H23 Hlive. destruct (H12 Hlive) as [Hl2 Hp2].
  destruct (H23 Hl2) as [Hl3 Hp3]. split; [done|by etrans].
Qed.

Lemma enqueueEvent_grows_live (event : Event) (w : World) :
  grows_live w (enqueueEvent event w).2.
Proof.
  intros Hlive. rewrite (enqueueEvent_appended _ _ Hlive). simpl.
  rewrite appended_isReplay, appended_history. split; [done|].
  by apply prefix_app_r.
Qed.

Lemma keeps_recorded_same (w w' : World) :
  w_isReplay w' = w_isReplay w → w_history w' = w_history w →
  keeps_recorded w w'.
Proof. intros Hr Hh Hreplay. by rewrite Hr, Hh. Qed.

Lemma keeps_recorded_trans (w1 w2 w3 : World) :
  keeps_recorded w1 w2 → keeps_recorded w2 w3 → keeps_recorded w1 w3.
Proof.
  intros H12 H23 Hreplay. destruct (H12 Hreplay) as [Hr2 Hh2].
  destruct (H23 Hr2) as [Hr3 Hh3]. split; [done|congruence].
Qed.

Lemma enqueueEvent_keeps_recorded (event : Event) (w : World) :
  keeps_recorded w (enqueueEvent event w).2.
Proof.
  intros Hreplay.
  destruct (enqueueEvent_cases event w)
    as [[Hlive _]|[[_ [j ->]]|[_ (j & hE & Hland & [(Hty & Hsan & ->)|[e ->]])]]];
    [congruence|simpl; proj_simpl..]; try done.
  split; [done|].
  destruct Hland as (_ & _ & Hj & _). unfold history_at in Hj.
  case_bool_decide; [|done].
  rewrite list_fmap_insert, Hsan.
  apply list_insert_id. by rewrite list_lookup_fmap, Hj.
Qed.

(** X1. Live mode is never left and the history is append-only in it: across
    any code of the isolate and across any stretch of [run], the history
    that was there is a prefix of the history that results. *)
Theorem live_history_is_append_only (isolate : nat → list value → Script)
    (w : World) :
  w_isReplay w = false →
  (∀ p, w_isReplay (exec p w).2 = false
        ∧ w_history w `prefix_of` w_history (exec p w).2)
  ∧ (∀ fuel sched i,
       w_isReplay (final_world (run_from isolate fuel sched i w)) = false
       ∧ w_history w
         `prefix_of` w_history (final_world (run_from isolate fuel sched i w))).
Proof.
  intros Hlive. split.
  - intros p. revert Hlive. apply (exec_frame grows_live).
    + intros w0. by apply grows_live_same.
    + apply grows_live_trans.
    + apply enqueueEvent_grows_live.
  - intros fuel sched i. revert Hlive.
    apply (run_from_frame isolate grows_live).
    + intros w0. by apply grows_live_same.
    + apply grows_live_trans.
    + intros l w0. by apply grows_live_same.
    + intros fired j event w0.
      apply handle_frame with (can_fire := λ _, True);
        try (intros; by apply grows_live_same).
      * apply grows_live_trans.
      * apply enqueueEvent_grows_live.
      * by apply Forall_true.
Qed.

(** X2. Replay mode is never left, and a replay changes nothing of the
    history but callbacks: across any code of the isolate and across any
    stretch of [run], the history has the same length and each entry has
    the same type and the same fields outside [callback] and [callbacks],
    whether the replay succeeds or throws. *)
Theorem replay_keeps_recorded_payloads (isolate : nat → list value → Script)
    (w : World) :
  w_isReplay w = true →
  (∀ p, w_isReplay (exec p w).2 = true
        ∧ sanitizeEvent <$> w_history (exec p w).2
          = sanitizeEvent <$> w_history w)
  ∧ (∀ fuel sched i,
       w_isReplay (final_world (run_from isolate fuel sched i w)) = true
       ∧ sanitizeEvent
         <$> w_history (final_world (run_from isolate fuel sched i w))
         = sanitizeEvent <$> w_history w).
Proof.
  intros Hreplay. split.
  - intros p. revert Hreplay. apply (exec_frame keeps_recorded).
    + intros w0. by apply keeps_recorded_same.
    + apply keeps_recorded_trans.
    + apply enqueueEvent_keeps_recorded.
  - intros fuel sched i. revert Hreplay.
    apply (run_from_frame isolate keeps_recorded).
    + intros w0. by apply keeps_recorded_same.
    + apply keeps_recorded_trans.
    + intros l w0. by apply keeps_recorded_same.
    + intros fired j event w0.
      apply handle_frame with (can_fire := λ _, True);
        try (intros; by apply keeps_recorded_same).
      * apply keeps_recorded_trans.
      * apply enqueueEvent_keeps_recorded.
      * by apply Forall_true.
Qed.

(** ** The task table along a run *)

Lemma tasks_after_keeps_keys (eventIndex : nat) (event : Event)
    (m : gmap Z TaskState) (k : Z) :
  is_Some (m !! k) → is_Some (tasks_after eventIndex event m !! k).
Proof.
  intros Hk.
  assert (∀ k' task, is_Some (<[k' := task]> m !! k)) as Hins.
  { intros k' task. destruct (decide (k' = k)) as [->|Hne].
    - rewrite lookup_insert_eq. by eexists.
    - by rewrite lookup_insert_ne. }
  destruct event as [taskId b v cbs| |taskId cb|taskId b v|ms cb|taskId b v];
    simpl; try done.
  - destruct (m !! taskId) as [[]|]; done.
  - destruct b; [done|]. by destruct (m !! taskId).
  - destruct b; [done|]. by destruct (m !! taskId).
Qed.

Lemma tasks_after_keeps_settled (eventIndex : nat) (event : Event)
    (m : gmap Z TaskState) (t : Z) (task : TaskState) :
  m !! t = Some task → is_settled task →
  (event = PromiseCreate → Z.of_nat eventIndex ≠ t) →
  ∃ task', tasks_after eventIndex event m !! t = Some task'
           ∧ is_settled task'.
Proof.
  intros Ht Hsettled Hcreate.
  assert (∀ k v, ∃ task', <[k := RESOLVED [] false v]> m !! t = Some task'
                          ∧ is_settled task') as Hres.
  { intros k v. destruct (decide (k = t)) as [->|Hne].
    - rewrite lookup_insert_eq. by eexists.
    - rewrite lookup_insert_ne by done. by exists task. }
  destruct event as [taskId b v cbs| |taskId cb|taskId b v|ms cb|taskId b v];
    simpl; try by exists task.
  - rewrite lookup_insert_ne by by apply Hcreate. by exists task.
  - destruct (m !! taskId) as [[cbs| |]|] eqn:Hk; try by exists task.
    rewrite lookup_insert_ne; [by exists task|].
    intros ->. rewrite Ht in Hk. by simplify_eq.
  - destruct b; [by exists task|].
    destruct (m !! taskId); [apply Hres|by exists task].
  - destruct b; [by exists task|].
    destruct (m !! taskId); [apply Hres|by exists task].
Qed.

(** X3. No entry of the task table is ever removed: a task id that has an
    entry keeps one across any stretch of [run], in live and in replay
    mode, however the run ends. *)
Theorem tasks_are_never_removed (isolate : nat → list value → Script)
    (fuel : nat) (sched : nat → list nat) (i : nat) (w : World) (t : Z) :
  is_Some (w_tasks w !! t) →
  is_Some (w_tasks (final_world (run_from isolate fuel sched i w)) !! t).
Proof.
  apply (run_from_frame isolate
           (λ w w', is_Some (w_tasks w !! t) → is_Some (w_tasks w' !! t))).
  - done.
  - intros w1 w2 w3 H12 H23 H1. by apply H23, H12.
  - done.
  - intros fired j event w0 H0. rewrite handle_tasks.
    by apply tasks_after_keeps_keys.
Qed.

(** X4. A settled task never becomes pending again: once the loop is past
    the index of a task that is [RESOLVED] or [REJECTED], that task is
    [RESOLVED] or [REJECTED] at every later point of the run, however the
    run ends. *)
Theorem settled_task_stays_settled (isolate : nat → list value → Script)
    (fuel : nat) (sched : nat → list nat) (i : nat) (w : World) (t : Z)
    (task : TaskState) :
  w_tasks w !! t = Some task →
  is_settled task →
  (t < Z.of_nat i)%Z →
  ∃ task', w_tasks (final_world (run_from isolate fuel sched i w)) !! t
           = Some task'
           ∧ is_settled task'.
Proof.
  revert i w task. induction fuel as [|fuel IH]; intros i w task Ht Hs Hi;
    simpl; [by exists task|].
  destruct (w_history w !! i) as [event|];
    [|case_bool_decide; by exists task].
  pose proof (handle_tasks isolate (sched i) i event
                (log (LogHandle (Z.of_nat i) event) w)) as Htasks.
  change (w_tasks (log (LogHandle (Z.of_nat i) event) w)) with (w_tasks w)
    in Htasks.
  destruct (tasks_after_keeps_settled i event (w_tasks w) t task Ht Hs)
    as (task' & Ht' & Hs'); [lia|].
  unfold step, bind, modify.
  destruct (handle isolate (sched i) i event _) as [[[]|e] w'];
    simpl in *; rewrite <- Htasks in Ht'; [|by exists task'..].
  apply (IH (S i) w' task'); [done|done|lia].
Qed.

(** ** The order in which events are handled *)

Lemma handled_app (l1 l2 : list LogLine) :
  handled (l1 ++ l2) = handled l1 ++ handled l2.
Proof. apply omap_app. Qed.

Lemma enqueueEvent_handled (event : Event) (w : World) :
  handled (console (enqueueEvent event w).2) = handled (console w).
Proof.
  assert (handled (console (notify w)) = handled (console w)) as Hn.
  { unfold notify. destruct (onEnqueue (timeline w)); [|done].
    simpl. rewrite handled_app. simpl. by rewrite app_nil_r. }
  destruct (enqueueEvent_cases event w)
    as [[_ ->]|[[_ [j ->]]|[_ (j & hE & Hland & [(Hty & _ & ->)|[e ->]])]]];
    unfold at_cursor; simpl; rewrite ?handled_app, Hn; simpl;
    by rewrite ?app_nil_r.
Qed.

Lemma handle_handled (isolate : nat → list value → Script)
    (fired : list nat) (i : nat) (event : Event) (w : World) :
  handled (console (handle isolate fired i event w).2) = handled (console w).
Proof.
  apply (handle_frame (same (λ w, handled (console w))))
    with (can_fire := λ _, True); try done.
  - apply same_trans.
  - intros ev w0. apply enqueueEvent_handled.
  - by apply Forall_true.
Qed.

Lemma types_kept_length (w w' : World) :
  types_kept w w' → length (w_history w) ≤ length (w_history w').
Proof.
  intros Hkept.
  destruct (decide (length (w_history w) ≤ length (w_history w')))
    as [|Hlt]; [done|].
  destruct (lookup_lt_is_Some_2 (w_history w) (length (w_history w')))
    as [e He]; [lia|].
  destruct (Hkept _ _ He) as (e' & He' & _).
  apply lookup_lt_Some in He'. lia.
Qed.

(** X5. [run] handles the events one by one in the order of the log,
    skipping none and coming back to none: the indices it handles from
    [eventIndex] on are [eventIndex], [eventIndex + 1], ... up to where it
    stops; and when it stops to wait, every entry of the history has been
    handled. *)
Theorem events_are_handled_in_log_order (isolate : nat → list value → Script)
    (fuel : nat) (sched : nat → list nat) (i : nat) (w : World) :
  i ≤ length (w_history w) →
  ∃ n, n ≤ fuel
       ∧ handled (console (final_world (run_from isolate fuel sched i w)))
         = handled (console w) ++ (Z.of_nat <$> seq i n)
       ∧ (∀ j w', run_from isolate fuel sched i w = Unfinished j w' →
                  n = fuel ∧ j = i + fuel)
       ∧ (∀ j w', run_from isolate fuel sched i w = Waiting j w' →
                  j = i + n ∧ j = length (w_history w')).
Proof.
  revert i w. induction fuel as [|fuel IH]; intros i w Hi; simpl.
  { exists 0. split; [done|]. split; [by rewrite app_nil_r|].
    split; [intros j w' [= <- <-]; lia|done]. }
  destruct (w_history w !! i) as [event|] eqn:Hev.
  - pose proof (handle_handled isolate (sched i) i event
                  (log (LogHandle (Z.of_nat i) event) w)) as Hh.
    pose proof (handle_types_kept isolate (sched i) i event
                  (log (LogHandle (Z.of_nat i) event) w)) as Hkept.
    apply types_kept_length in Hkept. apply lookup_lt_Some in Hev.
    unfold step, bind, modify.
    destruct (handle isolate (sched i) i event _) as [[[]|e] w'];
      simpl in Hh, Hkept; rewrite handled_app in Hh; simpl in Hh.
    + destruct (IH (S i) w') as (n & Hn & Hc & Hu & Hw).
      { unfold w_history in *. simpl in *. lia. }
      exists (S n). split; [lia|].
      split; [rewrite Hc, Hh, <- app_assoc; done|].
      split.
      * intros j w2 Hrun. destruct (Hu j w2 Hrun). lia.
      * intros j w2 Hrun. destruct (Hw j w2 Hrun). lia.
    + exists 1. split; [lia|]. split; [simpl; by rewrite Hh|]. done.
    + exists 1. split; [lia|]. split; [simpl; by rewrite Hh|]. done.
  - exists 0. apply lookup_ge_None in Hev. case_bool_decide; simpl.
    + split; [lia|]. split; [by rewrite app_nil_r|].
      split; [done|]. intros j w' [= <- <-]. lia.
    + split; [lia|]. split; [by rewrite app_nil_r|]. done.
Qed.

(** ** Events that refer to a task *)

(** X6. An event that refers to a task id without an entry in the task
    table makes [run] fail with [InvalidSchedulerState], its message naming
    that id; besides the console line of the event, nothing has changed:
    nothing was enqueued, no callback was called and no timer was fired. *)
Theorem missing_task_fails_run (isolate : nat → list value → Script)
    (fuel : nat) (sched : nat → list nat) (i : nat) (event : Event)
    (t : Z) (w : World) :
  w_history w !! i = Some event →
  looked_up event = Some t →
  w_tasks w !! t = None →
  run_from isolate (S fuel) sched i w
  = Failed (InvalidSchedulerState (NoTaskState t))
      (log (LogHandle (Z.of_nat i) event) w).
Proof.
  intros Hev Hlook Ht. rewrite (run_from_step _ _ _ _ _ _ Hev).
  rewrite step_handle.
  destruct event as [taskId b v cbs| |taskId cb|taskId b v|ms cb|taskId b v];
    simplify_eq/=; unfold bind, getTaskState; proj_simpl; by rewrite Ht.
Qed.

Lemma register_on_rejected_discard (isolate : nat → list value → Script)
    (fired : list nat) (i : nat) (taskId : Z) (cb : Callback)
    (cbs : list Callback) (err : value) (w : World) :
  w_tasks w !! taskId = Some (REJECTED cbs err) →
  handle isolate fired i (PromiseRegister taskId cb) w = (Ok Continue, w).
Proof. intros Ht. unfold handle, bind, getTaskState. by rewrite Ht. Qed.

Lemma handle_resolve_live (isolate : nat → list value → Script)
    (fired : list nat) (i : nat) (taskId : Z) (b : bool) (v : value)
    (w : World) :
  w_isReplay w = false →
  is_Some (w_tasks w !! taskId) →
  cast_is_sound (PromiseResolve taskId b v) →
  ∃ w', handle isolate fired i (PromiseResolve taskId b v) w
        = (Ok Continue, w')
        ∧ w_isReplay w' = false.
Proof.
  intros Hlive [task Ht] Hc. destruct b.
  - destruct Hc as [target ->].
    erewrite handle_resolve_with_task by exact Ht.
    rewrite enqueueEvent_appended by done.
    eexists. split; [done|]. by rewrite appended_isReplay.
  - erewrite handle_resolve_with_value by exact Ht.
    destruct (settled_world_live fired taskId v w Hlive)
      as (_ & Hlive' & _).
    case_bool_decide.
    + rewrite enqueueEvent_appended by done.
      eexists. split; [done|]. by rewrite appended_isReplay.
    + by eexists.
Qed.

(** X7. In live mode, handling an event that is not a [PromiseComplete]
    cannot fail once the task it refers to has an entry (and, for a
    resolution with a task, the value is a number): the handler comes to
    its end and the loop goes on to the next event, still in live mode. *)
Theorem live_handling_succeeds (isolate : nat → list value → Script)
    (fired : list nat) (i : nat) (event : Event) (w : World) :
  w_isReplay w = false →
  type event ≠ "PromiseComplete" →
  (∀ t, looked_up event = Some t → is_Some (w_tasks w !! t)) →
  cast_is_sound event →
  ∃ w', step isolate fired i event w = (Ok Continue, w')
        ∧ w_isReplay w' = false.
Proof.
  intros Hlive Hty Htask Hcast. rewrite step_handle.
  set (w0 := log (LogHandle (Z.of_nat i) event) w).
  assert (w_isReplay w0 = false) as Hlive0 by done.
  assert (w_tasks w0 = w_tasks w) as Htasks0 by done.
  clearbody w0. rewrite <- Htasks0 in Htask. clear Htasks0 Hlive w.
  destruct event as [taskId b v cbs| |taskId cb|taskId b v|ms cb|taskId b v];
    [done|..].
  - eexists. split; [reflexivity|]. by proj_simpl.
  - destruct (Htask taskId eq_refl) as [[cbs|cbs b v|cbs err] Ht].
    + erewrite handle_register_created by exact Ht.
      eexists. split; [done|]. by proj_simpl.
    + erewrite handle_register_resolved by exact Ht.
      destruct (yield_same_tasks fired w0) as (_ & Hlive' & _).
      rewrite enqueueEvent_appended by (by rewrite Hlive').
      eexists. split; [done|]. by rewrite appended_isReplay, Hlive'.
    + erewrite register_on_rejected_discard by exact Ht. by eexists.
  - apply handle_resolve_live; [done|by apply Htask|done].
  - unfold handle, bind.
    rewrite (enqueueEvent_appended _ _ Hlive0). cbv beta iota.
    rewrite enqueueEvent_appended by by rewrite appended_isReplay.
    cbv beta iota. rewrite !appended_isReplay, Hlive0. cbv beta iota.
    eexists. split; [reflexivity|].
    exact (eq_trans (appended_isReplay _ _)
             (eq_trans (appended_isReplay _ _) Hlive0)).
  - rewrite handle_timer_resolve.
    apply handle_resolve_live; [done|by apply Htask|done].
Qed.

(** ** A run in replay mode *)

Lemma stays_quiet_refl (w : World) : stays_quiet w w.
Proof. by intros H. Qed.

Lemma stays_quiet_trans (w1 w2 w3 : World) :
  stays_quiet w1 w2 → stays_quiet w2 w3 → stays_quiet w1 w3.
Proof. unfold stays_quiet. auto. Qed.

Lemma enqueueEvent_stays_quiet (event : Event) (w : World) :
  stays_quiet w (enqueueEvent event w).2.
Proof.
  destruct (enqueueEvent_same event w) as (_ & Hr & Hp & _).
  intros [Hreplay Hnone]. split; congruence.
Qed.

Lemma yield_stays_quiet (fired : list nat) (w : World) :
  stays_quiet w (yield fired w).2.
Proof.
  intros [Hreplay Hnone]. rewrite yield_settled; [done|].
  rewrite Hnone. constructor.
Qed.

Lemma handle_stays_quiet (isolate : nat → list value → Script)
    (fired : list nat) (eventIndex : nat) (event : Event) (w : World) :
  stays_quiet w (handle isolate fired eventIndex event w).2.
Proof.
  pose proof stays_quiet_refl as Hrefl.
  pose proof stays_quiet_trans as Htrans.
  pose proof enqueueEvent_stays_quiet as Henq.
  assert (∀ taskId task w, stays_quiet w (tasks_set taskId task w).2)
    as Hset by (by intros ? ? ? ?).
  assert (∀ (taskId : Z) (b : bool) (v : value),
            stays_quiet w (handle isolate fired eventIndex
                             (PromiseResolve taskId b v) w).2) as Hresolve.
  { intros taskId b v. unfold handle.
    apply bind_frame; [done|by apply getTaskState_frame|].
    intros task w1 _. destruct b.
    - destruct v; try apply Hrefl.
      apply bind_frame; [done|apply Henq|intros; apply Hrefl].
    - apply bind_frame; [done|apply Hset|]. intros _ w2 _.
      apply bind_frame; [done|apply yield_stays_quiet|]. intros _ w3 _.
      apply bind_frame; [done| |intros; apply Hrefl].
      case_bool_decide; [|apply Hrefl].
      apply bind_frame; [done|apply Henq|intros; apply Hrefl]. }
  destruct event as [taskId b v callbacks| |taskId callback|taskId b v
                     |ms callback|taskId b v].
  - unfold handle. apply bind_frame; [done| |].
    + apply call_all_frame; [done..|by intros ? ? ?].
    + intros _ w1 _. case_bool_decide; apply Hrefl.
  - unfold handle.
    apply bind_frame; [done|apply Hset|intros; apply Hrefl].
  - unfold handle. apply bind_frame; [done|by apply getTaskState_frame|].
    intros [cbs|cbs b v|cbs err] w1 _.
    + apply bind_frame; [done|apply Hset|intros; apply Hrefl].
    + apply bind_frame; [done|apply yield_stays_quiet|]. intros _ w2 _.
      apply bind_frame; [done|apply Henq|intros; apply Hrefl].
    + apply Hrefl.
  - apply Hresolve.
  - unfold handle. apply bind_frame; [done|apply Henq|]. intros taskId w1 _.
    apply bind_frame; [done|apply Henq|]. intros _ w2 _.
    apply bind_frame; [done| |intros; apply Hrefl].
    intros [Hreplay Hnone]. by rewrite Hreplay.
  - apply Hresolve.
Qed.

Lemma handle_keeps_length (isolate : nat → list value → Script)
    (fired : list nat) (eventIndex : nat) (event : Event) (w : World) :
  w_isReplay w = true →
  length (w_history (handle isolate fired eventIndex event w).2)
  = length (w_history w).
Proof.
  intros Hreplay.
  assert (keeps_recorded w (handle isolate fired eventIndex event w).2)
    as Hkept.
  { apply handle_frame with (can_fire := λ _, True);
      try (intros; by apply keeps_recorded_same).
    - apply keeps_recorded_trans.
    - apply enqueueEvent_keeps_recorded.
    - by apply Forall_true. }
  destruct (Hkept Hreplay) as [_ Hh].
  apply (f_equal length) in Hh. by rewrite !length_fmap in Hh.
Qed.

(** A replaying run ends once the loop has gone through the history, which
    keeps its length. *)
Lemma replay_run_from_ends (isolate : nat → list value → Script)
    (fuel : nat) (sched : nat → list nat) (i : nat) (w : World) :
  quiet_replay w →
  length (w_history w) - i < fuel →
  (∃ w', run_from isolate fuel sched i w = Returned w')
  ∨ (∃ e w', run_from isolate fuel sched i w = Failed e w').
Proof.
  revert i w. induction fuel as [|fuel IH]; intros i w Hq Hfuel; [lia|].
  simpl. destruct (w_history w !! i) as [event|] eqn:Hev.
  - apply lookup_lt_Some in Hev.
    unfold step, bind, modify.
    assert (quiet_replay (log (LogHandle (Z.of_nat i) event) w)) as Hq0
      by done.
    pose proof (handle_stays_quiet isolate (sched i) i event _ Hq0) as Hq1.
    pose proof (handle_keeps_length isolate (sched i) i event _ (proj1 Hq0))
      as Hlen.
    change (w_history (log (LogHandle (Z.of_nat i) event) w))
      with (w_history w) in Hlen.
    destruct (handle isolate (sched i) i event _) as [[[]|e] w'];
      simpl in *.
    + apply IH; [done|lia].
    + left. by eexists.
    + right. by eexists _, _.
  - destruct Hq as [_ Hnone]. rewrite Hnone. left. by eexists.
Qed.

(** X8. A run in replay mode starts no timer, never waits and ends.  [run]
    never comes to the wait of line 248, the timeline is still in replay
    mode and [pendingPromises] is empty wherever the run stands; and once
    the loop has had as many turns as the history has entries, and one
    more, [run] has ended, by returning or by an exception. *)
Theorem replay_run_never_waits (isolate : nat → list value → Script)
    (fuel : nat) (sched : nat → list nat) (w : World) :
  w_isReplay w = true →
  (∀ j w', run isolate fuel sched w ≠ Waiting j w')
  ∧ w_isReplay (final_world (run isolate fuel sched w)) = true
  ∧ pendingPromises (final_world (run isolate fuel sched w)) = []
  ∧ (length (w_history w) < fuel →
     (∃ w', run isolate fuel sched w = Returned w')
     ∨ (∃ e w', run isolate fuel sched w = Failed e w')).
Proof.
  intros Hreplay.
  assert (quiet_replay (set_pendingPromises [] w)) as Hq by done.
  assert ((∀ j w', run isolate fuel sched w ≠ Waiting j w')
          ∧ w_isReplay (final_world (run isolate fuel sched w)) = true
          ∧ pendingPromises (final_world (run isolate fuel sched w)) = [])
    as (Hwait & Hmode & Hnone).
  { unfold run. revert Hq. generalize (set_pendingPromises [] w).
    generalize 0. clear w Hreplay.
    induction fuel as [|fuel IH]; intros i w Hq; simpl.
    { destruct Hq. by repeat split. }
    destruct (w_history w !! i) as [event|].
    - unfold step, bind, modify.
      assert (quiet_replay (log (LogHandle (Z.of_nat i) event) w)) as Hq0
        by done.
      apply (handle_stays_quiet isolate (sched i) i event) in Hq0.
      destruct (handle isolate (sched i) i event _) as [[[]|e] w'];
        simpl in *; [by apply IH|destruct Hq0; by repeat split..].
    - destruct Hq as [Hreplay Hnone]. rewrite Hnone. by repeat split. }
  split; [done|]. split; [done|]. split; [done|].
  intros Hfuel. unfold run. apply replay_run_from_ends; [done|].
  change (w_history (set_pendingPromises [] w)) with (w_history w). lia.
Qed.

(** ** A replay that has run out of recorded events *)

(** X9. Once a replay has consumed its recorded events, [enqueueEvent]
    throws a [TypeError] (it reads [.type] of [undefined]) whatever the
    event, leaves the history and the task table as they were, and leaves
    the timeline in the same condition: every later call throws as well,
    the timeline never goes over to live mode. *)
Theorem exhausted_replay_throws (event : Event) (w : World) :
  exhausted w →
  (enqueueEvent event w).1 = Throw TypeError
  ∧ w_history (enqueueEvent event w).2 = w_history w
  ∧ w_tasks (enqueueEvent event w).2 = w_tasks w
  ∧ (w_replayIndex w < w_replayIndex (enqueueEvent event w).2)%Z
  ∧ exhausted (enqueueEvent event w).2.
Proof.
  intros (Hreplay & Hidx & Hall). unfold enqueueEvent.
  rewrite notify_isReplay, Hreplay. cbn zeta.
  rewrite notify_history, notify_replayIndex.
  rewrite (fastForward_exhausted _ _ Hall). cbn [fst snd].
  unfold exhausted. proj_simpl.
  split; [done|]. split; [done|]. split; [done|]. split; [lia|].
  split; [done|]. split; [lia|].
  unfold entries_from in *. rewrite !bool_decide_eq_true_2 in * by lia.
  rewrite length_drop. rewrite drop_ge by lia. constructor.
Qed.

(** ** What a replay accepts *)

Lemma sanitizeEvent_type (event historyEvent : Event) :
  sanitizeEvent event = sanitizeEvent historyEvent →
  type historyEvent = type event.
Proof. by destruct event, historyEvent. Qed.

(** X10. A replaying [enqueueEvent] returns exactly when the incoming
    event and the entry under the cursor are deeply equal once their
    callbacks are removed: the comparison of the types (line 134) refuses
    nothing that [assert.deepStrictEqual] (line 137) would let through,
    and the callbacks are never compared. *)
Theorem replay_accepts_iff_payloads_agree (event : Event) (w : World) (j : Z)
    (historyEvent : Event) :
  w_isReplay w = true →
  lands_on (w_history w) (w_replayIndex w) j historyEvent →
  (∃ i w', enqueueEvent event w = (Ok i, w'))
  ↔ sanitizeEvent event = sanitizeEvent historyEvent.
Proof.
  intros Hreplay Hland.
  rewrite (enqueueEvent_replay _ _ _ _ Hreplay Hland). split.
  - intros (i & w' & Heq). case_bool_decide; [done|].
    by case_bool_decide.
  - intros Hsan.
    rewrite bool_decide_eq_false_2
      by (intros Hne; apply Hne; by apply sanitizeEvent_type).
    rewrite bool_decide_eq_true_2 by done. by eexists _, _.
Qed.

(** ** Recording and replaying *)

Lemma replayed_cons_inv (rest : list Event) (historyEvent : Event)
    (others : list Event) :
  replayed rest = historyEvent :: others →
  ∃ timers rest',
    rest = timers ++ historyEvent :: rest'
    ∧ Forall is_TimerResolve timers
    ∧ ¬ is_TimerResolve historyEvent
    ∧ replayed rest' = others.
Proof.
  unfold replayed. induction rest as [|e rest IH]; [done|].
  rewrite filter_cons. destruct (decide (¬ is_TimerResolve e)) as [Hne|He].
  - intros [= -> <-]. by exists [], rest.
  - intros (timers & rest' & -> & Htimers & Hne & Hrest)%IH.
    exists (e :: timers), rest'. split; [done|]. split; [|done].
    constructor; [|done]. by destruct (decide (is_TimerResolve e)).
Qed.

Lemma replayed_nil_inv (rest : list Event) :
  replayed rest = [] → Forall is_TimerResolve rest.
Proof.
  unfold replayed. induction rest as [|e rest IH]; [constructor|].
  rewrite filter_cons. destruct (decide (¬ is_TimerResolve e)); [done|].
  intros Hrest. constructor; [|by apply IH].
  by destruct (decide (is_TimerResolve e)).
Qed.

Lemma fastForward_app (timers : list Event) (historyEvent : Event)
    (rest : list Event) (i : Z) :
  Forall is_TimerResolve timers →
  ¬ is_TimerResolve historyEvent →
  fastForward (timers ++ historyEvent :: rest) i
  = ((i + Z.of_nat (length timers))%Z, Some historyEvent).
Proof.
  intros Htimers Hne. revert i.
  induction Htimers as [|e timers He _ IH]; intros i; simpl.
  - rewrite bool_decide_eq_false_2 by done. f_equal. lia.
  - rewrite bool_decide_eq_true_2 by done. rewrite IH. f_equal. lia.
Qed.

(** One accepted call, by the shape of the entries after the cursor. *)
Lemma enqueueEvent_replay_next (event historyEvent : Event)
    (timers rest : list Event) (w : World) :
  w_isReplay w = true →
  (-1 ≤ w_replayIndex w)%Z →
  entries_from (w_history w) (w_replayIndex w + 1)
  = timers ++ historyEvent :: rest →
  Forall is_TimerResolve timers →
  ¬ is_TimerResolve historyEvent →
  sanitizeEvent event = sanitizeEvent historyEvent →
  ∃ (j : nat) w',
    enqueueEvent event w = (Ok (Z.of_nat j), w')
    ∧ j = Z.to_nat (w_replayIndex w + 1) + length timers
    ∧ (w_replayIndex w < Z.of_nat j)%Z
    ∧ w_history w !! j = Some historyEvent
    ∧ w_isReplay w' = true
    ∧ w_replayIndex w' = Z.of_nat j
    ∧ w_history w' = <[j := event]> (w_history w)
    ∧ w_tasks w' = w_tasks w
    ∧ entries_from (w_history w') (Z.of_nat j + 1) = rest.
Proof.
  intros Hreplay Hidx Hrest Htimers Hne Hsan.
  unfold entries_from in Hrest. rewrite bool_decide_eq_true_2 in Hrest by lia.
  set (s := Z.to_nat (w_replayIndex w + 1)) in *.
  exists (s + length timers), (set_history
    (<[s + length timers := event]> (w_history w))
    (at_cursor (Z.of_nat (s + length timers)) event w)).
  assert (w_history w !! (s + length timers) = Some historyEvent) as Hj.
  { rewrite <- lookup_drop, Hrest. by apply list_lookup_middle. }
  split.
  { unfold enqueueEvent. rewrite notify_isReplay, Hreplay. cbn zeta.
    rewrite notify_history, notify_replayIndex.
    unfold entries_from. rewrite bool_decide_eq_true_2 by lia.
    fold s. rewrite Hrest, (fastForward_app _ _ _ _ Htimers Hne).
    replace (w_replayIndex w + 1 + Z.of_nat (length timers))%Z
      with (Z.of_nat (s + length timers)) by lia.
    rewrite bool_decide_eq_false_2
      by (intros Hty; apply Hty; by apply sanitizeEvent_type).
    rewrite bool_decide_eq_true_2 by done.
    rewrite Nat2Z.id. unfold at_cursor. by proj_simpl. }
  split; [done|]. split; [lia|]. split; [done|].
  unfold at_cursor. proj_simpl. repeat split; try done.
  unfold entries_from. rewrite bool_decide_eq_true_2 by lia.
  replace (Z.to_nat (Z.of_nat (s + length timers) + 1))
    with (s + S (length timers)) by lia.
  rewrite drop_insert_lt by lia.
  rewrite <- drop_drop, Hrest.
  rewrite cons_middle, app_assoc. apply drop_app_length'.
  rewrite length_app. simpl. lia.
Qed.

Lemma enqueueAll_replay (events : list Event) (w : World) :
  w_isReplay w = true →
  (-1 ≤ w_replayIndex w)%Z →
  sanitizeEvent <$> events
  = sanitizeEvent <$> replayed (entries_from (w_history w)
                                  (w_replayIndex w + 1)) →
  ∃ indices w',
    enqueueAll events w = (Ok indices, w')
    ∧ Forall (λ i, w_replayIndex w < i)%Z indices
    ∧ take (Z.to_nat (w_replayIndex w + 1)) (w_history w')
      = take (Z.to_nat (w_replayIndex w + 1)) (w_history w)
    ∧ sanitizeEvent <$> w_history w' = sanitizeEvent <$> w_history w
    ∧ w_tasks w' = w_tasks w
    ∧ Forall2 (λ i event, history_at (w_history w') i = Some event)
        indices events
    ∧ exhausted w'.
Proof.
  revert w. induction events as [|event events IH]; intros w Hreplay Hidx Hsan.
  - exists [], w. simpl. repeat split; try done; try constructor.
    apply replayed_nil_inv. symmetry in Hsan. by apply fmap_nil_inv in Hsan.
  - symmetry in Hsan. apply fmap_cons_inv in Hsan
      as (historyEvent & others & Hhead & Hothers & Hrest).
    apply replayed_cons_inv in Hrest
      as (timers & rest & Hrest & Htimers & Hne & Hrep).
    destruct (enqueueEvent_replay_next event historyEvent timers rest w)
      as (j & w1 & Hrun & _ & Hlt & Hj & Hreplay1 & Hidx1 & Hh1 & Htasks1
          & Hrest1);
      [done..|].
    destruct (IH w1) as (indices & w' & Hall & Hafter & Htake & Hsan' & Htasks'
                         & Hstored & Hex).
    { done. }
    { lia. }
    { rewrite Hidx1, Hrest1. by subst others. }
    exists (Z.of_nat j :: indices), w'.
    rewrite Hidx1 in Hafter, Htake.
    replace (Z.to_nat (Z.of_nat j + 1)) with (S j) in Htake by lia.
    assert (j < length (w_history w)) as Hjlt by by eapply lookup_lt_Some.
    split. { simpl. unfold bind. by rewrite Hrun, Hall. }
    split. { constructor; [done|]. eapply Forall_impl; [exact Hafter|].
             simpl. lia. }
    split.
    { assert (∀ l : list Event,
                take (Z.to_nat (w_replayIndex w + 1)) l
                = take (Z.to_nat (w_replayIndex w + 1)) (take (S j) l))
        as Hin by (intros l; rewrite take_take; f_equal; lia).
      rewrite (Hin (w_history w')), Htake, <- Hin.
      rewrite Hh1. apply take_insert_ge. lia. }
    split.
    { rewrite Hsan', Hh1, list_fmap_insert. apply list_insert_id.
      rewrite list_lookup_fmap, Hj. simpl. by rewrite Hhead. }
    split; [congruence|]. split; [|done].
    constructor; [|done].
    unfold history_at. rewrite bool_decide_eq_true_2 by lia.
    rewrite Nat2Z.id.
    rewrite <- (lookup_take_lt (w_history w') (S j)) by lia.
    rewrite Htake, lookup_take_lt by lia. rewrite Hh1.
    by apply list_lookup_insert_eq.
Qed.

Lemma enqueueAll_live (events : list Event) (w : World) :
  w_isReplay w = false →
  ∃ w',
    enqueueAll events w
    = (Ok (Z.of_nat <$> seq (length (w_history w)) (length events)), w')
    ∧ w_history w' = w_history w ++ events
    ∧ w_isReplay w' = false
    ∧ w_tasks w' = w_tasks w.
Proof.
  revert w. induction events as [|event events IH]; intros w Hlive.
  - exists w. by rewrite app_nil_r.
  - destruct (IH (appended event w)) as (w' & Hall & Hh & Hlive' & Htasks').
    { by rewrite appended_isReplay. }
    exists w'. simpl. unfold bind.
    rewrite enqueueEvent_appended by done. rewrite Hall.
    rewrite appended_history in Hh |- *. rewrite appended_tasks in Htasks'.
    rewrite length_app, Nat.add_1_r. unfold ret.
    rewrite Hh, <- app_assoc. done.
Qed.

(** X11. A replay accepts the recorded events.  When the events given to
    [enqueueEvent] one after the other are, callbacks apart, the entries
    that follow the cursor in the history, the [TimerResolve] entries left
    out, every call returns: the index it returns is behind the cursor, and
    in the end each event is found in the history at the index returned
    for it.  The entries before the cursor are as they were, the history
    has the payloads it had, and the replay is exhausted. *)
Theorem replay_accepts_the_recorded_events (events : list Event)
    (w : World) :
  w_isReplay w = true →
  (-1 ≤ w_replayIndex w)%Z →
  sanitizeEvent <$> events
  = sanitizeEvent <$> replayed (entries_from (w_history w)
                                  (w_replayIndex w + 1)) →
  ∃ indices w',
    enqueueAll events w = (Ok indices, w')
    ∧ Forall (λ i, w_replayIndex w < i)%Z indices
    ∧ take (Z.to_nat (w_replayIndex w + 1)) (w_history w')
      = take (Z.to_nat (w_replayIndex w + 1)) (w_history w)
    ∧ sanitizeEvent <$> w_history w' = sanitizeEvent <$> w_history w
    ∧ Forall2 (λ i event, history_at (w_history w') i = Some event)
        indices events
    ∧ exhausted w'.
Proof.
  intros Hreplay Hidx Hsan.
  destruct (enqueueAll_replay events w Hreplay Hidx Hsan)
    as (indices & w' & Hall & Hafter & Htake & Hsan' & _ & Hstored & Hex).
  by exists indices, w'.
Qed.

(** X12. Record, then replay.  Events enqueued in live mode are appended
    in order and get consecutive indices.  After [startReplay], the same
    events without the [TimerResolve] ones, with any callbacks, are all
    accepted: the task table is not touched, the history keeps its
    payloads and holds each replayed event at the index returned for it,
    and the replay ends exhausted. *)
Theorem record_then_replay (events events' : list Event) (w : World) :
  w_isReplay w = false →
  sanitizeEvent <$> events'
  = sanitizeEvent <$> replayed (w_history w ++ events) →
  ∃ w1 indices' w2,
    enqueueAll events w
    = (Ok (Z.of_nat <$> seq (length (w_history w)) (length events)), w1)
    ∧ w_history w1 = w_history w ++ events
    ∧ enqueueAll events' (startReplay w1) = (Ok indices', w2)
    ∧ sanitizeEvent <$> w_history w2
      = sanitizeEvent <$> (w_history w ++ events)
    ∧ w_tasks w2 = w_tasks w
    ∧ Forall2 (λ i event, history_at (w_history w2) i = Some event)
        indices' events'
    ∧ exhausted w2.
Proof.
  intros Hlive Hsan.
  destruct (enqueueAll_live events w Hlive) as (w1 & Hall & Hh1 & _ & Htasks1).
  destruct (enqueueAll_replay events' (startReplay w1))
    as (indices' & w2 & Hall' & _ & _ & Hsan' & Htasks' & Hstored & Hex).
  { done. }
  { done. }
  { change (w_history (startReplay w1)) with (w_history w1).
    change (w_replayIndex (startReplay w1)) with (-1)%Z.
    unfold entries_from. simpl. by rewrite Hh1. }
  exists w1, indices', w2.
  split; [done|]. split; [done|]. split; [done|].
  split; [by rewrite Hsan', <- Hh1|].
  split; [by rewrite Htasks', <- Htasks1|done].
Qed.

(** ** A replay next to the live execution it repeats *)

Lemma grows_live_refl (w : World) : grows_live w w.
Proof. by apply grows_live_same. Qed.

Lemma mirrors_ret {A} (a : A) : mirrors (ret a) (ret a).
Proof. split; [intros w; apply grows_live_refl|done]. Qed.

Lemma mirrors_throw {A} (e : Error) : mirrors (@throw A e) (throw e).
Proof. split; [intros w; apply grows_live_refl|done]. Qed.

Lemma mirrors_bind {A B} (mL mR : M A) (kL kR : A → M B) :
  mirrors mL mR →
  (∀ a, mirrors (kL a) (kR a)) →
  mirrors (bind mL kL) (bind mR kR).
Proof.
  intros [Hg Hm] Hk. split.
  - intros w. apply bind_frame; [apply grows_live_trans|apply Hg|].
    intros a w' _. apply Hk.
  - intros wL wR Hmir Hpre.
    pose proof (Hg wL (proj1 Hmir)) as [Hlive1 _].
    specialize (Hm wL wR Hmir). unfold bind in *.
    destruct (mL wL) as [[a|e] wL1]; simpl in *.
    + destruct (Hk a) as [Hgk Hka].
      destruct Hm as (Hr & Hmir1 & Hh1).
      { etrans; [|exact Hpre]. by apply (Hgk wL1). }
      destruct (mR wR) as [r wR1]; simpl in *; subst r.
      destruct (Hka wL1 wR1 Hmir1) as (Hr2 & Hmir2 & Hh2);
        [by rewrite Hh1|].
      split; [done|]. split; [done|congruence].
    + destruct (Hm Hpre) as (Hr & Hmir1 & Hh1).
      destruct (mR wR) as [r wR1]; simpl in *; by subst r.
Qed.

Lemma mirrors_try {A} (mL mR : M A) :
  mirrors mL mR → mirrors (try_ mL) (try_ mR).
Proof.
  intros [Hg Hm]. split.
  - intros w. apply try_frame, Hg.
  - intros wL wR Hmir Hpre. specialize (Hm wL wR Hmir). unfold try_ in *.
    destruct (mL wL) as [rL wL1], (mR wR) as [rR wR1]; simpl in *.
    destruct (Hm Hpre) as (-> & Hmir1 & Hh1). done.
Qed.

Lemma mirrors_enqueueEvent (event : Event) :
  ¬ is_TimerResolve event →
  mirrors (enqueueEvent event) (enqueueEvent event).
Proof.
  intros Hne. split; [apply enqueueEvent_grows_live|].
  intros wL wR (Hlive & Hreplay & Htasks & Hinv & Hnone & Hidx & Htimers).
  rewrite (enqueueEvent_appended _ _ Hlive). cbn [fst snd].
  rewrite appended_history. intros [rest Hrest].
  rewrite <- app_assoc in Hrest. simpl in Hrest.
  unfold entries_from in Htimers.
  rewrite bool_decide_eq_true_2 in Htimers by lia.
  destruct (enqueueEvent_same event wR) as (Hst & _ & Hsp & Hsi).
  destruct (enqueueEvent_replay_next event event
              (drop (Z.to_nat (w_replayIndex wR + 1)) (w_history wL))
              rest wR)
    as (j & wR1 & Hrun & Hjeq & Hlt & Hj & Hreplay1 & Hidx1 & Hh1 & Htasks1
        & _); [done|lia| |done..|].
  { unfold entries_from. rewrite bool_decide_eq_true_2 by lia.
    rewrite Hrest. apply drop_app_le. lia. }
  rewrite length_drop in Hjeq.
  assert (j = length (w_history wL)) as -> by lia.
  rewrite Hrun in *. unfold same in *. simpl in *.
  split; [done|]. split.
  - split; [by rewrite appended_isReplay|]. split; [done|].
    split; [by rewrite appended_tasks, Hst|].
    split; [by rewrite appended_invoked, Hsi|].
    split; [congruence|].
    rewrite appended_history, length_app, Hidx1. simpl.
    split; [lia|].
    unfold entries_from. rewrite bool_decide_eq_true_2 by lia.
    rewrite drop_ge; [constructor|]. rewrite length_app. simpl. lia.
  - rewrite Hh1. by apply list_insert_id.
Qed.

(** A step that writes nothing to the history, on both sides. *)
Lemma mirrors_update (fL fR : World → World) :
  (∀ w, w_isReplay (fL w) = w_isReplay w ∧ w_history (fL w) = w_history w) →
  (∀ w, w_history (fR w) = w_history w) →
  (∀ wL wR, mirror wL wR → mirror (fL wL) (fR wR)) →
  mirrors (modify fL) (modify fR).
Proof.
  intros HL HR Hmir. split.
  - intros w. apply grows_live_same; apply HL.
  - intros wL wR Hm _. unfold modify. simpl. split; [done|].
    split; [by apply Hmir|apply HR].
Qed.

Lemma mirrors_getTaskState (taskId : Z) :
  mirrors (getTaskState taskId) (getTaskState taskId).
Proof.
  split.
  - intros w. apply getTaskState_frame, grows_live_refl.
  - intros wL wR Hmir _. pose proof Hmir as (_ & _ & Htasks & _).
    unfold getTaskState. rewrite Htasks.
    by destruct (w_tasks wL !! taskId).
Qed.

Lemma mirrors_tasks_set (taskId : Z) (task : TaskState) :
  mirrors (tasks_set taskId task) (tasks_set taskId task).
Proof.
  apply mirrors_update; [done..|].
  intros wL wR (Hlive & Hreplay & Htasks & Hinv & Hnone & Hidx & Htimers).
  repeat split; try done; proj_simpl; [by rewrite Htasks|lia..].
Qed.

Lemma mirrors_exec (p : Script) : mirrors (exec p) (exec p).
Proof.
  induction p as [b v|msg|executor IHe k IHk|taskId b v k IHk
                  |taskId fn k IHk|fn ms args k IHk]; simpl.
  - apply mirrors_ret.
  - apply mirrors_throw.
  - apply mirrors_bind; [|intros; apply IHk].
    apply mirrors_try. unfold createPromise.
    apply mirrors_bind; [by apply mirrors_enqueueEvent|]. intros taskId.
    apply mirrors_bind; [|intros; apply mirrors_ret].
    apply mirrors_bind; [apply IHe|intros; apply mirrors_ret].
  - apply mirrors_bind; [|intros; apply IHk].
    apply mirrors_try. unfold resolve.
    apply mirrors_bind; [by apply mirrors_enqueueEvent|].
    intros; apply mirrors_ret.
  - apply mirrors_bind; [|intros; apply IHk].
    apply mirrors_try. unfold then_.
    apply mirrors_bind; [by apply mirrors_enqueueEvent|]. intros nextTaskId.
    apply mirrors_bind; [by apply mirrors_enqueueEvent|].
    intros; apply mirrors_ret.
  - apply mirrors_bind; [|intros; apply IHk].
    apply mirrors_try. by apply mirrors_enqueueEvent.
Qed.

Section Mirror.

Variable isolate : nat → list value → Script.

Lemma mirrors_call (callback : Callback) (b : bool) (v : value) :
  mirrors (call isolate callback b v) (call isolate callback b v).
Proof.
  destruct callback as [taskId|nextTaskId fn|fn args]; simpl.
  - apply mirrors_bind; [by apply mirrors_enqueueEvent|].
    intros; apply mirrors_ret.
  - apply mirrors_bind; [apply mirrors_exec|]. intros r.
    apply mirrors_bind; [by apply mirrors_enqueueEvent|].
    intros; apply mirrors_ret.
  - apply mirrors_bind; [apply mirrors_exec|intros; apply mirrors_ret].
Qed.

Lemma mirrors_call_all (callbacks : list Callback) (b : bool) (v : value) :
  mirrors (call_all isolate callbacks b v) (call_all isolate callbacks b v).
Proof.
  induction callbacks as [|callback rest IH]; simpl; [apply mirrors_ret|].
  apply mirrors_bind.
  - apply mirrors_update; [done..|].
    intros wL wR (Hlive & Hreplay & Htasks & Hinv & Hnone & Hidx & Htimers).
    repeat split; try done; proj_simpl; [|lia..].
    unfold record_call. simpl. by rewrite Hinv.
  - intros _. apply mirrors_bind; [apply mirrors_call|]. intros _. apply IH.
Qed.

Lemma fire_mirror (k : nat) (wL wR : World) :
  mirror wL wR → mirror (fire k wL) wR.
Proof.
  intros Hmir. pose proof Hmir as
    (Hlive & Hreplay & Htasks & Hinv & Hnone & Hidx & Htimers).
  unfold fire. destruct (pendingPromises wL !! k) as [p|]; [|done].
  destruct (pp_settled p); [done|].
  rewrite (enqueueEvent_appended _ _ Hlive). cbv beta iota.
  set (event := TimerResolve (pp_taskId p) false VUndefined).
  set (wL1 := set_pendingPromises _ _).
  assert (w_history wL1 = w_history wL ++ [event]) as Hh
    by apply appended_history.
  unfold mirror. rewrite Hh, length_app.
  split; [exact (eq_trans (appended_isReplay event wL) Hlive)|].
  split; [done|].
  split; [exact (eq_trans Htasks (eq_sym (appended_tasks event wL)))|].
  split; [exact (eq_trans Hinv (eq_sym (appended_invoked event wL)))|].
  split; [done|]. split; [lia|].
  unfold entries_from in *.
  rewrite bool_decide_eq_true_2 in Htimers |- * by lia.
  rewrite drop_app_le by lia. apply Forall_app. split; [done|].
  by repeat constructor.
Qed.

Lemma mirrors_yield (firedL firedR : list nat) :
  mirrors (yield firedL) (yield firedR).
Proof.
  split.
  - intros w. apply yield_frame with (can_fire := λ _, True);
      try (intros; by apply grows_live_same).
    + apply grows_live_trans.
    + apply enqueueEvent_grows_live.
    + by apply Forall_true.
  - intros wL wR Hmir _.
    rewrite (yield_settled firedR wR)
      by (destruct Hmir as (_ & _ & _ & _ & -> & _); constructor).
    split; [done|]. split; [|done]. unfold yield, modify. simpl.
    revert wL Hmir. induction firedL as [|k firedL IH]; intros wL Hmir;
      simpl; [done|].
    by apply IH, fire_mirror.
Qed.

Lemma mirrors_handle (firedL firedR : list nat) (eventIndex : nat)
    (event : Event) :
  mirrors (handle isolate firedL eventIndex event)
          (handle isolate firedR eventIndex event).
Proof.
  assert (∀ (taskId : Z) (b : bool) (v : value),
            mirrors (handle isolate firedL eventIndex
                       (PromiseResolve taskId b v))
                    (handle isolate firedR eventIndex
                       (PromiseResolve taskId b v))) as Hresolve.
  { intros taskId b v. unfold handle.
    apply mirrors_bind; [apply mirrors_getTaskState|]. intros task.
    destruct b.
    - destruct v; try apply mirrors_throw.
      apply mirrors_bind; [by apply mirrors_enqueueEvent|].
      intros; apply mirrors_ret.
    - apply mirrors_bind; [apply mirrors_tasks_set|]. intros _.
      apply mirrors_bind; [apply mirrors_yield|]. intros _.
      apply mirrors_bind; [|intros; apply mirrors_ret].
      case_bool_decide; [|apply mirrors_ret].
      apply mirrors_bind; [by apply mirrors_enqueueEvent|].
      intros; apply mirrors_ret. }
  destruct event as [taskId b v callbacks| |taskId callback|taskId b v
                     |ms callback|taskId b v].
  - unfold handle. apply mirrors_bind; [apply mirrors_call_all|]. intros _.
    case_bool_decide; apply mirrors_ret.
  - unfold handle.
    apply mirrors_bind; [apply mirrors_tasks_set|intros; apply mirrors_ret].
  - unfold handle. apply mirrors_bind; [apply mirrors_getTaskState|].
    intros [cbs|cbs b v|cbs err].
    + apply mirrors_bind; [apply mirrors_tasks_set|].
      intros; apply mirrors_ret.
    + apply mirrors_bind; [apply mirrors_yield|]. intros _.
      apply mirrors_bind; [by apply mirrors_enqueueEvent|].
      intros; apply mirrors_ret.
    + apply mirrors_ret.
  - apply Hresolve.
  - unfold handle.
    apply mirrors_bind; [by apply mirrors_enqueueEvent|]. intros taskId.
    apply mirrors_bind; [by apply mirrors_enqueueEvent|]. intros _.
    apply mirrors_bind; [|intros; apply mirrors_ret].
    split.
    + intros w. destruct (w_isReplay w) eqn:Hw; simpl;
        [apply grows_live_refl|]. by apply grows_live_same.
    + intros wL wR Hmir _. pose proof Hmir as
        (Hlive & Hreplay & Htasks & Hinv & Hnone & Hidx & Htimers).
      rewrite Hlive, Hreplay. simpl. done.
  - apply Hresolve.
Qed.

Lemma mirrors_step (firedL firedR : list nat) (eventIndex : nat)
    (event : Event) :
  mirrors (step isolate firedL eventIndex event)
          (step isolate firedR eventIndex event).
Proof.
  unfold step. apply mirrors_bind; [|intros; apply mirrors_handle].
  by apply mirrors_update.
Qed.

Lemma run_from_grows_live (fuel : nat) (sched : nat → list nat) (i : nat)
    (w : World) :
  grows_live w (final_world (run_from isolate fuel sched i w)).
Proof.
  apply (run_from_frame isolate grows_live).
  - apply grows_live_refl.
  - apply grows_live_trans.
  - intros l w0. by apply grows_live_same.
  - intros fired j event w0. apply mirrors_handle with (firedR := fired).
Qed.

End Mirror.

(** X13. Code of the isolate is replayed as it ran.  Let a replaying world
    stand where a live world stands, its history extending what the code
    records when it runs in the live world.  Run in the replaying world,
    the code gives the same result: every host call returns the id it
    returned live, or throws as it did.  The recorded history is left as
    it is, and the two worlds are in step again. *)
Theorem replay_repeats_the_isolate (p : Script) (wL wR : World) :
  mirror wL wR →
  w_history (exec p wL).2 `prefix_of` w_history wR →
  (exec p wR).1 = (exec p wL).1
  ∧ mirror (exec p wL).2 (exec p wR).2
  ∧ w_history (exec p wR).2 = w_history wR.
Proof. apply mirrors_exec. Qed.

(** X14. A replay repeats the live run.  Let a replaying world stand where
    a live world stands, its history being the one that the live [run]
    ends with.  Whatever timers elapse on either side, [run] in the
    replaying world ends as the live one does: it returns when the live
    one returns, fails with the same error when it fails, and returns when
    the live one is left waiting for timers; the same callbacks have been
    called with the same arguments in the same order, the task tables are
    equal, and the recorded history is as it was. *)
Theorem replay_repeats_the_live_run (isolate : nat → list value → Script)
    (fuel : nat) (schedL schedR : nat → list nat) (i : nat)
    (wL wR : World) :
  mirror wL wR →
  w_history (final_world (run_from isolate fuel schedL i wL))
  = w_history wR →
  repeats (run_from isolate fuel schedL i wL)
          (run_from isolate fuel schedR i wR)
  ∧ w_history (final_world (run_from isolate fuel schedR i wR))
    = w_history wR.
Proof.
  revert i wL wR. induction fuel as [|fuel IH]; intros i wL wR Hmir Hfinal.
  { simpl. destruct Hmir as (_ & _ & Htasks & Hinv & _). done. }
  pose proof Hmir as (Hlive & Hreplay & Htasks & Hinv & Hnone & Hidx & Htimers).
  pose proof (run_from_grows_live isolate (S fuel) schedL i wL Hlive)
    as [_ Hpre].
  rewrite Hfinal in Hpre. simpl in Hfinal |- *.
  destruct (w_history wL !! i) as [event|] eqn:Hev.
  - rewrite (prefix_lookup_Some _ _ _ _ Hev Hpre).
    destruct (mirrors_step isolate (schedL i) (schedR i) i event)
      as [Hg Hm].
    pose proof (Hg wL Hlive) as [Hlive1 _].
    specialize (Hm wL wR Hmir).
    destruct (step isolate (schedL i) i event wL) as [rL wL1]; simpl in *.
    assert (w_history wL1 `prefix_of` w_history wR) as Hpre1.
    { destruct rL as [[]|e]; simpl in Hfinal; [|by rewrite Hfinal..].
      rewrite <- Hfinal. by apply run_from_grows_live. }
    destruct (Hm Hpre1) as (Hr & Hmir1 & Hh1).
    destruct (step isolate (schedR i) i event wR) as [rR wR1];
      simpl in *; subst rR.
    pose proof Hmir1 as (_ & _ & Htasks1 & Hinv1 & _).
    destruct rL as [[]|e]; simpl in *; [|done..].
    destruct (IH (S i) wL1 wR1 Hmir1) as [Hrep Hh]; [congruence|].
    split; [done|congruence].
  - case_bool_decide; simpl in Hfinal; rewrite <- Hfinal, Hev, Hnone; done.
Qed.

(** ** The states that [run] writes *)

Lemma tasks_after_written_by_run (eventIndex : nat) (event : Event)
    (m : gmap Z TaskState) :
  map_Forall (λ _, written_by_run) m →
  map_Forall (λ _, written_by_run) (tasks_after eventIndex event m).
Proof.
  intros Hm.
  destruct event as [taskId b v callbacks| |taskId callback|taskId [] v
                     |ms callback|taskId [] v]; cbn [tasks_after]; try done.
  - by apply map_Forall_insert_2.
  - destruct (m !! taskId) as [[cbs|cbs b v|cbs err]|]; try done.
    by apply map_Forall_insert_2.
  - destruct (m !! taskId); [|done]. by apply map_Forall_insert_2.
  - destruct (m !! taskId); [|done]. by apply map_Forall_insert_2.
Qed.

(** X15. No task is ever rejected.  When no entry of the task table is
    [REJECTED] and every [RESOLVED] entry holds a plain value and no
    callback (an empty table, for one), this is so after any code of the
    isolate and after any stretch of [run], however it ends: [run] writes
    [CREATED] and such [RESOLVED] states only. *)
Theorem no_task_is_rejected (isolate : nat → list value → Script)
    (w : World) :
  map_Forall (λ _, written_by_run) (w_tasks w) →
  (∀ p, map_Forall (λ _, written_by_run) (w_tasks (exec p w).2))
  ∧ (∀ fuel sched i,
       map_Forall (λ _, written_by_run)
         (w_tasks (final_world (run_from isolate fuel sched i w)))).
Proof.
  intros Hw. split.
  - intros p. by rewrite exec_same_tasks.
  - intros fuel sched i. revert Hw.
    apply (run_from_frame isolate
             (λ w w', map_Forall (λ _, written_by_run) (w_tasks w) →
                      map_Forall (λ _, written_by_run) (w_tasks w'))).
    + done.
    + auto.
    + done.
    + intros fired j event w0 Hw0. rewrite handle_tasks.
      by apply tasks_after_written_by_run.
Qed.

(** ** When callbacks are called *)

Lemma yield_same_invoked (fired : list nat) (w : World) :
  same invoked w (yield fired w).2.
Proof. by destruct (yield_same_tasks fired w) as (_ & _ & Hinv). Qed.

(** X16. Callbacks are called when a [PromiseComplete] event is handled,
    and at no other time: the host functions never call one (a [then] on a
    task that is resolved already does not run its callback on the spot),
    and neither does the handling of any other event, timers that elapse
    meanwhile included. *)
Theorem callbacks_run_only_on_completion
    (isolate : nat → list value → Script) (w : World) :
  (∀ p, invoked (exec p w).2 = invoked w)
  ∧ (∀ fired eventIndex event,
       type event ≠ "PromiseComplete" →
       invoked (handle isolate fired eventIndex event w).2 = invoked w).
Proof.
  pose proof (@same_refl _ invoked) as Hrefl.
  pose proof (@same_trans _ invoked) as Htrans.
  assert (∀ event w, same invoked w (enqueueEvent event w).2) as Henq
    by (intros; apply enqueueEvent_same).
  split.
  { intros p. by apply (exec_frame (same invoked)). }
  intros fired eventIndex event Hty.
  assert (∀ taskId task w, same invoked w (tasks_set taskId task w).2)
    as Hset by done.
  assert (∀ (taskId : Z) (b : bool) (v : value),
            same invoked w (handle isolate fired eventIndex
                              (PromiseResolve taskId b v) w).2) as Hresolve.
  { intros taskId b v. unfold handle.
    apply bind_frame; [done|by apply getTaskState_frame|].
    intros task w1 _. destruct b.
    - destruct v; try apply Hrefl.
      apply bind_frame; [done|apply Henq|intros; apply Hrefl].
    - apply bind_frame; [done|apply Hset|]. intros _ w2 _.
      apply bind_frame; [done|apply yield_same_invoked|]. intros _ w3 _.
      apply bind_frame; [done| |intros; apply Hrefl].
      case_bool_decide; [|apply Hrefl].
      apply bind_frame; [done|apply Henq|intros; apply Hrefl]. }
  destruct event as [taskId b v callbacks| |taskId callback|taskId b v
                     |ms callback|taskId b v]; [done|..].
  - done.
  - unfold handle. apply bind_frame; [done|by apply getTaskState_frame|].
    intros [cbs|cbs b v|cbs err] w1 _.
    + apply bind_frame; [done|apply Hset|intros; apply Hrefl].
    + apply bind_frame; [done|apply yield_same_invoked|]. intros _ w2 _.
      apply bind_frame; [done|apply Henq|intros; apply Hrefl].
    + apply Hrefl.
  - apply Hresolve.
  - unfold handle. apply bind_frame; [done|apply Henq|]. intros taskId w1 _.
    apply bind_frame; [done|apply Henq|]. intros _ w2 _.
    apply bind_frame; [done| |intros; apply Hrefl].
    by destruct (w_isReplay w2).
  - apply Hresolve.
Qed.

(** ** Worked runs *)

Lemma live_history_is_append_only_witness :
  w_isReplay (exec resolves_twice (new_World [])).2 = false
  ∧ w_history (new_World [])
    `prefix_of` w_history (exec resolves_twice (new_World [])).2.
Proof.
  apply (proj1 (live_history_is_append_only idle_isolate (new_World [])
                  eq_refl) resolves_twice).
Defined.

Lemma replay_keeps_recorded_payloads_witness :
  w_isReplay (final_world (run_from idle_isolate 4 no_timer 0 timer_replay))
  = true
  ∧ sanitizeEvent
    <$> w_history (final_world (run_from idle_isolate 4 no_timer 0
                                  timer_replay))
    = sanitizeEvent <$> w_history timer_replay.
Proof.
  apply (proj2 (replay_keeps_recorded_payloads idle_isolate timer_replay
                  eq_refl) 4 no_timer 0).
Defined.

Lemma tasks_are_never_removed_witness :
  is_Some (w_tasks (final_world (run_from idle_isolate 3 no_timer 4
                                   before_late_register)) !! 0%Z).
Proof.
  apply (tasks_are_never_removed idle_isolate 3 no_timer 4
           before_late_register 0).
  vm_compute. by eexists.
Defined.

Lemma settled_task_stays_settled_witness :
  ∃ task', w_tasks (final_world (run_from idle_isolate 3 no_timer 4
                                   before_late_register)) !! 0%Z
           = Some task'
           ∧ is_settled task'.
Proof.
  apply (settled_task_stays_settled idle_isolate 3 no_timer 4
           before_late_register 0 (RESOLVED [] false (VNum 2)));
    [by vm_compute|done|lia].
Defined.

Lemma events_are_handled_in_log_order_witness :
  ∃ n, n ≤ 4
       ∧ handled (console (final_world
                   (run_from idle_isolate 4 no_timer 0
                      (exec resolves_twice (new_World [])).2)))
         = handled (console (exec resolves_twice (new_World [])).2)
           ++ (Z.of_nat <$> seq 0 n).
Proof.
  destruct (events_are_handled_in_log_order idle_isolate 4 no_timer 0
              (exec resolves_twice (new_World [])).2) as (n & Hn & Hh & _);
    [vm_compute; lia|].
  by exists n.
Defined.

Lemma missing_task_fails_run_witness :
  run_from idle_isolate 1 no_timer 0
    (new_World [PromiseResolve 5 false (VNum 1)])
  = Failed (InvalidSchedulerState (NoTaskState 5))
      (log (LogHandle 0 (PromiseResolve 5 false (VNum 1)))
         (new_World [PromiseResolve 5 false (VNum 1)])).
Proof.
  apply (missing_task_fails_run idle_isolate 0 no_timer 0
           (PromiseResolve 5 false (VNum 1)) 5
           (new_World [PromiseResolve 5 false (VNum 1)]));
    reflexivity.
Defined.

Lemma live_handling_succeeds_witness :
  ∃ w', step idle_isolate [] 4 (PromiseRegister 0 (CbThen 3 0))
          before_late_register = (Ok Continue, w')
        ∧ w_isReplay w' = false.
Proof.
  apply (live_handling_succeeds idle_isolate [] 4
           (PromiseRegister 0 (CbThen 3 0)) before_late_register);
    [by vm_compute|done| |done].
  intros t [= <-]. vm_compute. by eexists.
Defined.

Lemma replay_run_never_waits_witness :
  (∀ j w', run idle_isolate 5 no_timer timer_replay ≠ Waiting j w')
  ∧ pendingPromises (final_world (run idle_isolate 5 no_timer timer_replay))
    = []
  ∧ ((∃ w', run idle_isolate 5 no_timer timer_replay = Returned w')
     ∨ (∃ e w', run idle_isolate 5 no_timer timer_replay = Failed e w')).
Proof.
  destruct (replay_run_never_waits idle_isolate 5 no_timer timer_replay)
    as (Hwait & _ & Hnone & Hends); [reflexivity|].
  split; [exact Hwait|]. split; [exact Hnone|].
  apply Hends. vm_compute. lia.
Defined.

(** [startReplay] on a timeline that has recorded nothing: every
    [enqueueEvent] throws. *)
Lemma exhausted_replay_throws_witness :
  (enqueueEvent PromiseCreate (startReplay (new_World []))).1
  = Throw TypeError
  ∧ exhausted (enqueueEvent PromiseCreate (startReplay (new_World []))).2.
Proof.
  destruct (exhausted_replay_throws PromiseCreate (startReplay (new_World [])))
    as (Hthrow & _ & _ & _ & Hex); [|done].
  split; [reflexivity|]. split; [by vm_compute|]. vm_compute. constructor.
Defined.

Lemma replay_accepts_iff_payloads_agree_witness :
  ∃ i w', enqueueEvent (PromiseRegister 0 (CbThen 1 7))
            (set_replayIndex 0
               (new_World [PromiseCreate; PromiseRegister 0 (CbForward 2)]))
          = (Ok i, w').
Proof.
  apply (proj2 (replay_accepts_iff_payloads_agree
                  (PromiseRegister 0 (CbThen 1 7))
                  (set_replayIndex 0
                     (new_World [PromiseCreate;
                                 PromiseRegister 0 (CbForward 2)]))
                  1 (PromiseRegister 0 (CbForward 2)) eq_refl
                  ltac:(change (lands_on [PromiseCreate;
                                          PromiseRegister 0 (CbForward 2)]
                                  0 1 (PromiseRegister 0 (CbForward 2)));
                        split; [lia|]; split; [intros k Hk; lia|done])));
    reflexivity.
Defined.

Lemma replay_accepts_the_recorded_events_witness :
  ∃ indices w',
    enqueueAll [PromiseCreate; PromiseRegister 0 (CbThen 1 7)]
      (new_World [PromiseCreate; TimerResolve 4 false VUndefined;
                  PromiseRegister 0 (CbForward 2)])
    = (Ok indices, w')
    ∧ exhausted w'.
Proof.
  destruct (replay_accepts_the_recorded_events
              [PromiseCreate; PromiseRegister 0 (CbThen 1 7)]
              (new_World [PromiseCreate; TimerResolve 4 false VUndefined;
                          PromiseRegister 0 (CbForward 2)]))
    as (indices & w' & Hall & _ & _ & _ & _ & Hex);
    [reflexivity|by vm_compute|reflexivity|].
  by exists indices, w'.
Defined.

Lemma record_then_replay_witness :
  ∃ w1 indices' w2,
    enqueueAll [PromiseCreate; TimerResolve 4 false VUndefined;
                PromiseRegister 0 (CbForward 2)] (new_World [])
    = (Ok [0; 1; 2]%Z, w1)
    ∧ enqueueAll [PromiseCreate; PromiseRegister 0 (CbThen 1 7)]
        (startReplay w1)
      = (Ok indices', w2)
    ∧ exhausted w2.
Proof.
  destruct (record_then_replay
              [PromiseCreate; TimerResolve 4 false VUndefined;
               PromiseRegister 0 (CbForward 2)]
              [PromiseCreate; PromiseRegister 0 (CbThen 1 7)]
              (new_World []))
    as (w1 & indices' & w2 & Hrec & _ & Hrep & _ & _ & _ & Hex);
    [reflexivity|reflexivity|].
  by exists w1, indices', w2.
Defined.

Lemma replay_repeats_the_isolate_witness :
  (exec three_thens (new_World recorded_three_thens)).1
  = (exec three_thens (new_World [])).1
  ∧ w_history (exec three_thens (new_World recorded_three_thens)).2
    = recorded_three_thens.
Proof.
  destruct (replay_repeats_the_isolate three_thens (new_World [])
              (new_World recorded_three_thens)) as (Hr & _ & Hh).
  - split; [reflexivity|]. split; [reflexivity|]. split; [reflexivity|].
    split; [reflexivity|]. split; [reflexivity|].
    split; [by vm_compute|]. vm_compute. constructor.
  - by exists [].
  - done.
Defined.

Lemma replay_repeats_the_live_run_witness :
  repeats
    (run_from idle_isolate 20 no_timer 0
       (exec resolves_twice (new_World [])).2)
    (run_from idle_isolate 20 no_timer 0
       (exec resolves_twice (new_World recorded_resolves_twice)).2).
Proof.
  apply (replay_repeats_the_live_run idle_isolate 20 no_timer no_timer 0
           (exec resolves_twice (new_World [])).2
           (exec resolves_twice (new_World recorded_resolves_twice)).2).
  - split; [reflexivity|]. split; [reflexivity|]. split; [reflexivity|].
    split; [reflexivity|]. split; [reflexivity|].
    split; [by vm_compute|]. vm_compute. constructor.
  - reflexivity.
Defined.

Lemma no_task_is_rejected_witness :
  map_Forall (λ _, written_by_run)
    (w_tasks (final_world (run_from idle_isolate 20 no_timer 0
                             (exec resolves_twice (new_World [])).2))).
Proof.
  apply (proj2 (no_task_is_rejected idle_isolate
                  (exec resolves_twice (new_World [])).2
                  ltac:(apply map_Forall_empty)) 20 no_timer 0).
Defined.

Lemma callbacks_run_only_on_completion_witness :
  invoked (handle idle_isolate [] 4 (PromiseRegister 0 (CbThen 3 0))
             before_late_register).2
  = invoked before_late_register.
Proof.
  apply (proj2 (callbacks_run_only_on_completion idle_isolate
                  before_late_register) [] 4 (PromiseRegister 0 (CbThen 3 0))).
  discriminate.
Defined.
